(** * evlongsim: straight-line acceleration simulation of a four-wheel-drive car

    A shallow embedding of [main.py].  Python floats are idealised as real
    numbers ([R]).  A division whose divisor is zero has no real value: in
    the program it raises [ZeroDivisionError] (Python floats) or yields
    [nan]/[inf] (numpy floats); both are rendered here as [None], and a
    computation that meets one is a failed computation.  The program itself
    goes on after a numpy [nan] or [inf], and the amperage limit can even
    absorb an [inf] (with [Kt = 0]); such ticks are outside this model:
    every statement about a tick or a run is about those in which no
    divisor is zero.  List accesses out
    of range ([IndexError]) and [max]/[index] failures ([ValueError]) are
    [None] as well.  Printing and plotting are left out; the output frame
    is the list of its rows. *)

From Stdlib Require Import Reals Lra Lia ZArith FunctionalExtensionality.
From stdpp Require Import base option list strings.

Open Scope R_scope.

(** ** Float and list primitives of the host language *)

(** [x / y] on floats. *)
Definition fdiv (x y : R) : option R :=
  if Req_dec_T y 0 then None else Some (x / y).

(** [l[n] = v]: an assignment to an index the list does not have raises. *)
Definition store (l : list R) (n : nat) (v : R) : option (list R) :=
  if decide (n < length l)%nat then Some (<[n := v]> l) else None.

(** [list(range(n))], read as floats. *)
Definition range_list (n : nat) : list R := INR <$> seq 0 n.

(** [max(l)]: the first of the largest elements; fails on the empty list. *)
Definition py_max (l : list R) : option R :=
  match l with
  | [] => None
  | x :: t => Some (fold_left (fun best y => if Rlt_dec best y then y else best) t x)
  end.

(** [l.index(v)]: the first position holding [v]; fails when there is none. *)
Fixpoint py_index (l : list R) (v : R) : option nat :=
  match l with
  | [] => None
  | x :: t => if Req_dec_T x v then Some 0%nat else S <$> py_index t v
  end.

(** [sum(l)]: left to right from [0]. *)
Definition py_sum (l : list R) : R := fold_left Rplus l 0.

(** [int(x)]: truncation towards zero. *)
Definition py_int (x : R) : Z :=
  if Rle_dec 0 x then Int_part x else (- Int_part (- x))%Z.

(** [for n in ns: s = body(s, n)], stopping at the first failure. *)
Fixpoint for_each {S : Type} (body : S -> nat -> option S) (s : S) (ns : list nat)
  : option S :=
  match ns with
  | [] => Some s
  | n :: ns' => s' ← body s n; for_each body s' ns'
  end.

(** [for n in range(k)]. *)
Definition for_range {S : Type} (body : S -> nat -> option S) (s : S) (k : nat)
  : option S :=
  for_each body s (seq 0 k).

(** ** Configuration objects *)

Module Vehicle.
Record t := mk { a : R; b : R; m : R; h : R; l : R; cd : R; A : R }.

(** [Vehicle.__init__]: the wheelbase is derived. *)
Definition init (a b m h cd A : R) : t :=
  {| a := a; b := b; m := m; h := h; l := a + b; cd := cd; A := A |}.
End Vehicle.

Module Motor.
Record t := mk { Kv : R; Kt : R; k : R }.

(** [Motor.__init__]: [Kt = 1/(Kv*0.10472)]. *)
Definition init (Kv k : R) : option t :=
  kt ← fdiv 1 (Kv * 0.10472);
  Some {| Kv := Kv; Kt := kt; k := k |}.
End Motor.

Module Battery.
Record t := mk { Ah : R; C : R; V : R; Constant : R; Burst : R; Burst_time : R }.

(** [Battery.__init__]. *)
Definition init (Ah C V B_time : R) : t :=
  {| Ah := Ah; C := C; V := V;
     Constant := C * Ah;
     Burst := C * Ah * 1.95;
     Burst_time := B_time |}.
End Battery.

Module Tire.
Record t := mk { r : R; a : R; b : R; c : R; d : R; J : R }.

(** [Tire.__init__(r, J, a, b, c, d)]. *)
Definition init (r J a b c d : R) : t :=
  {| r := r; a := a; b := b; c := c; d := d; J := J |}.

(** The local [Fx] of [Tire.lonFriction]. *)
Definition Fx (self : t) (slip normalForce : R) : R :=
  normalForce * d self *
  sin (c self * atan (b self * slip - a self * (b self * slip - atan (b self * slip)))).

(** [Tire.lonFriction]: computes [Fx], returns [u = Fx/normalForce]. *)
Definition lonFriction (self : t) (slip normalForce : R) : option R :=
  u ← fdiv (Fx self slip normalForce) normalForce;
  Some u.

(** The friction coefficient written as in the specification:
    [mu = d * sin(c * atan(b*s - a*(b*s - atan(b*s))))]. *)
Definition mu (self : t) (s : R) : R :=
  d self * sin (c self * atan (b self * s - a self * (b self * s - atan (b self * s)))).
End Tire.

(** ** The simulation object *)

(** The per-wheel working lists of [accel_FrictionLimited]. *)
Module Loc.
Record t := mk { P : list R; T : list R; w : list R; amps : list R; slip : list R }.
End Loc.

Module Sim.
Record t := mk {
  Vehicle : Vehicle.t;
  Motor : Motor.t;
  Tire : Tire.t;
  Battery : Battery.t;
  dt : R;
  runtime : R;
  current_x : R;
  current_x_dot : R;
  current_x_ddot : R;
  current_time : R;
  current_amps : list R;
  inital_Fz : list R;
  current_Fz : list R;
  current_P : list R;
  current_slip : list R;
  current_w : list R;
  output : list (list R)
}.

(** [Sim.__init__]. *)
Definition init (vehicle : Vehicle.t) (motor : Motor.t) (tire : Tire.t)
    (battery : Battery.t) (dt runtime : R) : option t :=
  ff ← fdiv (Vehicle.m vehicle * Vehicle.b vehicle) (Vehicle.l vehicle);
  fr ← fdiv (Vehicle.m vehicle * Vehicle.a vehicle) (Vehicle.l vehicle);
  Some {| Vehicle := vehicle; Motor := motor; Tire := tire; Battery := battery;
          dt := dt; runtime := runtime;
          current_x := 0;
          current_x_dot := 0.0001;
          current_x_ddot := 0;
          current_time := 0;
          current_amps := [0; 0; 0; 0];
          inital_Fz := [ff / 2; ff / 2; fr / 2; fr / 2];
          current_Fz := [ff / 2; ff / 2; fr / 2; fr / 2];
          current_P := [0; 0; 0; 0];
          current_slip := [0; 0; 0; 0];
          current_w := [0; 0; 0; 0];
          output := [] |}.

(** [Sim.update_values]. *)
Definition update_values (self : t) (x x_dot x_ddot time : R)
    (amps Fz P slip w : list R) : t :=
  {| Vehicle := Vehicle self; Motor := Motor self; Tire := Tire self;
     Battery := Battery self; dt := dt self; runtime := runtime self;
     current_x := x;
     current_x_dot := x_dot;
     current_x_ddot := x_ddot;
     current_time := time;
     current_amps := amps;
     inital_Fz := inital_Fz self;
     current_Fz := Fz;
     current_P := P;
     current_slip := slip;
     current_w := w;
     output := output self |}.

(** [Sim.w_fun]: the residual handed to the root finder. *)
Definition w_fun (self : t) (w T : R) (axle : nat) : option R :=
  w_prev ← current_w self !! axle;
  q ← fdiv (current_x_dot self) (Tire.r (Tire self) * w);
  fz ← current_Fz self !! axle;
  u ← Tire.lonFriction (Tire self) (1 - q) fz;
  Some (Tire.J (Tire self) * (w - w_prev) + Tire.r (Tire self) * u * fz - T).

(** One wheel's sample of the scan: [lonFriction(slip_it, Fz[i]) * Fz[i]]. *)
Definition sample (self : t) (slip_it : R) (i : nat) : option R :=
  fz ← current_Fz self !! i;
  u ← Tire.lonFriction (Tire self) slip_it fz;
  Some (u * fz).

(** Body of the scan [for n in range(100)]: one sample appended to each of
    the four lists. *)
Definition scan_body (self : t)
    (acc : list R * list R * list R * list R) (n : nat)
    : option (list R * list R * list R * list R) :=
  let '(P_rf_list, P_lf_list, P_lr_list, P_rr_list) := acc in
  let slip_it := INR n / 100 in
  p0 ← sample self slip_it 0;
  p1 ← sample self slip_it 1;
  p2 ← sample self slip_it 2;
  p3 ← sample self slip_it 3;
  Some (P_rf_list ++ [p0], P_lf_list ++ [p1], P_lr_list ++ [p2], P_rr_list ++ [p3]).

(** [P[i] = max(lst); slip[i] = lst.index(P[i])/100]. *)
Definition pick_peak (lst : list R) (i : nat) (ps : list R * list R)
    : option (list R * list R) :=
  let '(P, slip) := ps in
  mx ← py_max lst;
  P ← store P i mx;
  pi ← P !! i;
  ix ← py_index lst pi;
  slip ← store slip i (INR ix / 100);
  Some (P, slip).

(** The peak-force search: the scan and the four picks. *)
Definition peak_search (self : t) (P slip : list R) : option (list R * list R) :=
  lists ← for_range (scan_body self) ([], [], [], []) 100;
  let '(P_rf_list, P_lf_list, P_lr_list, P_rr_list) := lists in
  ps ← pick_peak P_rf_list 0 (P, slip);
  ps ← pick_peak P_lf_list 1 ps;
  ps ← pick_peak P_lr_list 2 ps;
  pick_peak P_rr_list 3 ps.

(** [w[n] = x_dot / (r * (1 - slip[n]))]. *)
Definition speed_body (self : t) (slip : list R) (w : list R) (n : nat)
    : option (list R) :=
  s ← slip !! n;
  v ← fdiv (current_x_dot self) (Tire.r (Tire self) * (1 - s));
  store w n v.

(** [T[n] = J * (w[n] - w_prev[n]) + r * P[n]]. *)
Definition torque_body (self : t) (w P : list R) (T : list R) (n : nat)
    : option (list R) :=
  wn ← w !! n;
  w_prev ← current_w self !! n;
  pn ← P !! n;
  store T n (Tire.J (Tire self) * (wn - w_prev) + Tire.r (Tire self) * pn).

(** [amps[n] = T[n] / Kt * (1 / k)]. *)
Definition amps_body (self : t) (T : list R) (amps : list R) (n : nat)
    : option (list R) :=
  tn ← T !! n;
  q ← fdiv tn (Motor.Kt (Motor self));
  ik ← fdiv 1 (Motor.k (Motor self));
  store amps n (q * ik).

(** [self.column_names], the header of the output frame. *)
Definition column_names : list string :=
  ["time (s)"; "x (m)"; "x_dot (m/s)"; "x_ddot (m/s/s)";
   "Right Front amps (A)"; "Left Front amps (A)";
   "Left Rear amps (A)"; "Right Rear amps (A)";
   "FZ Right Front (N)"; "FZ Left Front (N)";
   "FZ Left Rear (N)"; "FZ Right Rear (N)";
   "FX Right Front (N)"; "FX Left Front (N)";
   "FX Left Rear (N)"; "FX Right Rear (N)";
   "Right Front Slip Ratio (-)"; "Left Front Slip Ratio (-)";
   "Left Rear Slip Ratio (-)"; "Right Rear Slip Ratio (-)";
   "Right Front Wheel Speed (rad/s)"; "Left Front Wheel Speed (rad/s)";
   "Left Rear Wheel Speed (rad/s)"; "Right Rear Wheel Speed (rad/s)"]%string.

Section Solver.
(** scipy's hybrid root finder, an external collaborator: from a residual
    and a starting point it yields its last iterate and whether its
    tolerance was met. *)
Variable root_hybr : (R -> option R) -> R -> R * bool.

(** [fsolve(func, x0)] without [full_output]: the iterate alone; the
    status is only reported as a warning. *)
Definition fsolve (func : R -> option R) (x0 : R) : R :=
  fst (root_hybr func x0).

(** Body of the amperage-limit loop. *)
Definition limit_body (self : t) (st : Loc.t) (n : nat) : option Loc.t :=
  an ← Loc.amps st !! n;
  if Rgt_dec an (Battery.Burst (Battery self)) then
    amps ← store (Loc.amps st) n (Battery.Burst (Battery self));
    an ← amps !! n;
    ik ← fdiv 1 (Motor.k (Motor self));
    T ← store (Loc.T st) n (an * Motor.Kt (Motor self) * ik);
    tn ← T !! n;
    w ← store (Loc.w st) n (fsolve (fun w => w_fun self w tn n) 1);
    wn ← w !! n;
    q ← fdiv (current_x_dot self) (Tire.r (Tire self) * wn);
    slip ← store (Loc.slip st) n (1 - q);
    sn ← slip !! n;
    pn ← sample self sn n;
    P ← store (Loc.P st) n pn;
    Some {| Loc.P := P; Loc.T := T; Loc.w := w; Loc.amps := amps; Loc.slip := slip |}
  else Some st.

(** The wheel lists of [accel_FrictionLimited] once the amperage-limit
    loop is over. *)
Definition wheel_lists (self : t) : option Loc.t :=
  let len := length (current_Fz self) in
  let P := range_list len in
  let T := range_list len in
  let w := range_list len in
  let amps := range_list len in
  let slip := range_list len in
  ps ← peak_search self P slip;
  let '(P, slip) := ps in
  w ← for_range (speed_body self slip) w (length P);
  T ← for_range (torque_body self w P) T (length P);
  amps ← for_range (amps_body self T) amps (length P);
  for_range (limit_body self)
    {| Loc.P := P; Loc.T := T; Loc.w := w; Loc.amps := amps; Loc.slip := slip |}
    (length (current_Fz self)).

(** [Fz[n] = inital_Fz[n] - wtfr/2] in front ([n <= 1]), [+ wtfr/2] behind. *)
Definition load_body (self : t) (wtfr : R) (Fz : list R) (n : nat)
    : option (list R) :=
  f0 ← inital_Fz self !! n;
  if decide (n <= 1)%nat then store Fz n (f0 - wtfr / 2)
  else store Fz n (f0 + wtfr / 2).

(** [Sim.accel_FrictionLimited]. *)
Definition accel_FrictionLimited (self : t)
    : option (R * R * R * R * list R * list R * list R * list R * list R) :=
  let Fz := range_list (length (current_Fz self)) in
  st ← wheel_lists self;
  let P := Loc.P st in
  let F_aero :=
    (Vehicle.cd (Vehicle self) * 1.225 * current_x_dot self ^ 2
     * Vehicle.A (Vehicle self)) / 2 in
  x_ddot ← fdiv (py_sum P - F_aero) (Vehicle.m (Vehicle self));
  let x_dot := current_x_dot self + x_ddot * dt self in
  let x := current_x self + x_dot * dt self in
  hl ← fdiv (Vehicle.h (Vehicle self)) (Vehicle.l (Vehicle self));
  let wtfr := hl * Vehicle.m (Vehicle self) * x_ddot / 9.81 in
  Fz ← for_range (load_body self wtfr) Fz (length P);
  let time := current_time self + dt self in
  Some (x, x_dot, x_ddot, time, Loc.amps st, Fz, P, Loc.slip st, Loc.w st).

(** The row logged after a tick. *)
Definition output_data (self : t) : option (list R) :=
  a0 ← current_amps self !! 0%nat; a1 ← current_amps self !! 1%nat;
  a2 ← current_amps self !! 2%nat; a3 ← current_amps self !! 3%nat;
  f0 ← current_Fz self !! 0%nat; f1 ← current_Fz self !! 1%nat;
  f2 ← current_Fz self !! 2%nat; f3 ← current_Fz self !! 3%nat;
  p0 ← current_P self !! 0%nat; p1 ← current_P self !! 1%nat;
  p2 ← current_P self !! 2%nat; p3 ← current_P self !! 3%nat;
  s0 ← current_slip self !! 0%nat; s1 ← current_slip self !! 1%nat;
  s2 ← current_slip self !! 2%nat; s3 ← current_slip self !! 3%nat;
  w0 ← current_w self !! 0%nat; w1 ← current_w self !! 1%nat;
  w2 ← current_w self !! 2%nat; w3 ← current_w self !! 3%nat;
  Some [current_time self; current_x self; current_x_dot self;
        current_x_ddot self;
        a0; a1; a2; a3; f0; f1; f2; f3; p0; p1; p2; p3;
        s0; s1; s2; s3; w0; w1; w2; w3].

(** Body of the loop of [Sim.__call__]: one tick, committed and logged. *)
Definition tick (self : t) : option t :=
  current ← accel_FrictionLimited self;
  let '(x, x_dot, x_ddot, time, amps, Fz, P, slip, w) := current in
  let self := update_values self x x_dot x_ddot time amps Fz P slip w in
  row ← output_data self;
  Some {| Vehicle := Vehicle self; Motor := Motor self; Tire := Tire self;
          Battery := Battery self; dt := dt self; runtime := runtime self;
          current_x := current_x self;
          current_x_dot := current_x_dot self;
          current_x_ddot := current_x_ddot self;
          current_time := current_time self;
          current_amps := current_amps self;
          inital_Fz := inital_Fz self;
          current_Fz := current_Fz self;
          current_P := current_P self;
          current_slip := current_slip self;
          current_w := current_w self;
          output := output self ++ [row] |}.

(** The number of ticks of a run: [int(runtime/dt)]. *)
Definition ticks (self : t) : option Z :=
  q ← fdiv (runtime self) (dt self);
  Some (py_int q).

(** The state after [n] ticks. *)
Definition run (self : t) (n : nat) : option t :=
  for_range (fun s _ => tick s) self n.

(** [Sim.__call__]: [for dt in range(int(runtime/dt))]. *)
Definition call (self : t) : option t :=
  n ← ticks self;
  run self (Z.to_nat n).
End Solver.
End Sim.


(** ** Specification vocabulary *)

(** Sample [n] of the slip grid for wheel [i], written out as the
    specification has it: [longitudinalFriction(n/100, Fz[i]) * Fz[i]],
    the friction being [Tire.lonFriction] and the load the one the tick
    starts from. *)
Definition grid_sample (self : Sim.t) (i n : nat) : option R :=
  fz ← Sim.current_Fz self !! i;
  u ← Tire.lonFriction (Sim.Tire self) (INR n / 100) fz;
  Some (u * fz).

(** [k] is the argmax of wheel [i]'s force over the grid [0, 0.01, ..., 0.99]
    with value [pk], the lowest such index: every sample is at most [pk],
    every earlier one is strictly below. *)
Definition is_peak (self : Sim.t) (i k : nat) (pk : R) : Prop :=
  (k < 100)%nat /\
  grid_sample self i k = Some pk /\
  (forall n, (n < 100)%nat -> exists v, grid_sample self i n = Some v /\ v <= pk) /\
  (forall n, (n < k)%nat -> exists v, grid_sample self i n = Some v /\ v < pk).

(** All four wheels carry a load, and it is not zero. *)
Definition loaded (self : Sim.t) : Prop :=
  forall i, (i < 4)%nat ->
    exists fz, Sim.current_Fz self !! i = Some fz /\ fz <> 0.

(** What the amperage-limit loop does to one wheel whose lists hold
    [p0, t0, w0, a0, s0] on entry and [p, t, w, a, s] on exit. *)
Definition limited (root_hybr : (R -> option R) -> R -> R * bool) (self : Sim.t)
    (n : nat) (p0 t0 w0 a0 s0 p t w a s : R) : Prop :=
  (a0 > Battery.Burst (Sim.Battery self) /\
   Motor.k (Sim.Motor self) <> 0 /\
   a = Battery.Burst (Sim.Battery self) /\
   t = Battery.Burst (Sim.Battery self) * Motor.Kt (Sim.Motor self)
       * (1 / Motor.k (Sim.Motor self)) /\
   w = Sim.fsolve root_hybr (fun w => Sim.w_fun self w t n) 1 /\
   Tire.r (Sim.Tire self) * w <> 0 /\
   s = 1 - Sim.current_x_dot self / (Tire.r (Sim.Tire self) * w) /\
   Sim.sample self s n = Some p)
  \/
  (~ a0 > Battery.Burst (Sim.Battery self) /\
   p = p0 /\ t = t0 /\ w = w0 /\ a = a0 /\ s = s0).

(** The five values [accel_FrictionLimited] works out for wheel [i] before
    the amperage limit applies: the grid peak [pk] at slip [k/100], the
    wheel speed, the torque and the current that go with it. *)
Definition demanded (self : Sim.t) (i : nat) (p t w a s : R) : Prop :=
  exists k w_prev,
    is_peak self i k p /\
    Sim.current_w self !! i = Some w_prev /\
    Tire.r (Sim.Tire self) <> 0 /\
    Motor.Kt (Sim.Motor self) <> 0 /\
    Motor.k (Sim.Motor self) <> 0 /\
    s = INR k / 100 /\
    w = Sim.current_x_dot self / (Tire.r (Sim.Tire self) * (1 - s)) /\
    t = Tire.J (Sim.Tire self) * (w - w_prev) + Tire.r (Sim.Tire self) * p /\
    a = t / Motor.Kt (Sim.Motor self) * (1 / Motor.k (Sim.Motor self)).

(** Cell [i] of each of the five working lists. *)
Definition cells (st : Loc.t) (i : nat) (p t w a s : R) : Prop :=
  Loc.P st !! i = Some p /\ Loc.T st !! i = Some t /\ Loc.w st !! i = Some w /\
  Loc.amps st !! i = Some a /\ Loc.slip st !! i = Some s.

(** The five working lists all have [len] cells. *)
Definition sized (st : Loc.t) (len : nat) : Prop :=
  length (Loc.P st) = len /\ length (Loc.T st) = len /\ length (Loc.w st) = len /\
  length (Loc.amps st) = len /\ length (Loc.slip st) = len.

(** The state [Sim.__init__] builds when the wheelbase is not zero. *)
Definition started (vehicle : Vehicle.t) (motor : Motor.t) (tire : Tire.t)
    (battery : Battery.t) (dt runtime : R) : Sim.t :=
  let ff := Vehicle.m vehicle * Vehicle.b vehicle / Vehicle.l vehicle in
  let fr := Vehicle.m vehicle * Vehicle.a vehicle / Vehicle.l vehicle in
  {| Sim.Vehicle := vehicle; Sim.Motor := motor; Sim.Tire := tire;
     Sim.Battery := battery; Sim.dt := dt; Sim.runtime := runtime;
     Sim.current_x := 0;
     Sim.current_x_dot := 0.0001;
     Sim.current_x_ddot := 0;
     Sim.current_time := 0;
     Sim.current_amps := [0; 0; 0; 0];
     Sim.inital_Fz := [ff / 2; ff / 2; fr / 2; fr / 2];
     Sim.current_Fz := [ff / 2; ff / 2; fr / 2; fr / 2];
     Sim.current_P := [0; 0; 0; 0];
     Sim.current_slip := [0; 0; 0; 0];
     Sim.current_w := [0; 0; 0; 0];
     Sim.output := [] |}.

(** The shape every state of a run has: four cells per list. *)
Definition four_wheels (self : Sim.t) : Prop :=
  length (Sim.current_Fz self) = 4%nat /\ length (Sim.current_w self) = 4%nat /\
  length (Sim.inital_Fz self) = 4%nat /\ length (Sim.current_amps self) = 4%nat.

(** Two states of one simulation: same objects, same static loads. *)
Definition same_setup (s1 s2 : Sim.t) : Prop :=
  Sim.Vehicle s2 = Sim.Vehicle s1 /\ Sim.Motor s2 = Sim.Motor s1 /\
  Sim.Tire s2 = Sim.Tire s1 /\ Sim.Battery s2 = Sim.Battery s1 /\
  Sim.dt s2 = Sim.dt s1 /\ Sim.runtime s2 = Sim.runtime s1 /\
  Sim.inital_Fz s2 = Sim.inital_Fz s1.

(** A state from which ticks go on for ever: no weight transfer ([h = 0]),
    the loads are the static ones, and none of the divisors of a tick is 0. *)
Definition steady (self : Sim.t) : Prop :=
  four_wheels self /\ loaded self /\
  Sim.current_Fz self = Sim.inital_Fz self /\
  Vehicle.h (Sim.Vehicle self) = 0 /\
  Tire.r (Sim.Tire self) <> 0 /\
  Motor.Kt (Sim.Motor self) <> 0 /\
  Motor.k (Sim.Motor self) <> 0 /\
  Vehicle.m (Sim.Vehicle self) <> 0 /\
  Vehicle.l (Sim.Vehicle self) <> 0.

(** The aerodynamic drag of [accel_FrictionLimited] at the speed a tick
    starts from: [cd * 1.225 * x_dot**2 * A / 2]. *)
Definition F_aero (self : Sim.t) : R :=
  Vehicle.cd (Sim.Vehicle self) * 1.225 * Sim.current_x_dot self ^ 2
  * Vehicle.A (Sim.Vehicle self) / 2.

(** Left and right wheel of each axle hold the same value. *)
Definition mirrored (l : list R) : Prop :=
  l !! 0%nat = l !! 1%nat /\ l !! 2%nat = l !! 3%nat.

(** A state whose left and right sides are alike. *)
Definition symmetric (self : Sim.t) : Prop :=
  mirrored (Sim.inital_Fz self) /\ mirrored (Sim.current_Fz self) /\
  mirrored (Sim.current_w self) /\ mirrored (Sim.current_amps self) /\
  mirrored (Sim.current_P self) /\ mirrored (Sim.current_slip self).

(** ** Example configurations *)

(** A tire of the reference size whose curve is [mu s = sin (2 * atan s)],
    that is [2s/(1+s^2)]: [Tire(0.032, 0.00001667, 0, 1, 2, 1)]. *)
Definition tire_demo : Tire.t := Tire.init 0.032 0.00001667 0 1 2 1.

(** The reference configuration of [main.py]. *)
Definition vehicle_frc : Vehicle.t := Vehicle.init 0.126 0.126 5 0.032 0.75 0.0418.
Definition motor_frc : Motor.t :=
  {| Motor.Kv := 2000; Motor.Kt := 1 / (2000 * 0.10472); Motor.k := 0.8 |}.
Definition tire_frc : Tire.t := Tire.init 0.032 0.00001667 1.0301 16.6675 0.05343 65.1759.
Definition battery_frc : Battery.t := Battery.init 10 5 3.6 8.
Definition sim_frc : Sim.t := started vehicle_frc motor_frc tire_frc battery_frc 0.01 20.

(** The reference car on the demo tire with a small battery,
    [Battery(1, 1, 3.6, 8)], whose burst current is 1.95 A. *)
Definition battery_small : Battery.t := Battery.init 1 1 3.6 8.
Definition sim_small : Sim.t := started vehicle_frc motor_frc tire_demo battery_small 0.01 20.

(** The reference car with its centre of gravity on the ground ([h = 0]):
    no weight transfer. *)
Definition vehicle_flat : Vehicle.t := Vehicle.init 0.126 0.126 5 0 0.75 0.0418.
Definition sim_flat : Sim.t := started vehicle_flat motor_frc tire_frc battery_frc 0.01 20.

(** The reference car on the demo tire with the reference battery. *)
Definition sim_grip : Sim.t := started vehicle_frc motor_frc tire_demo battery_frc 0.01 20.

(** A root finder that gives up at once: it hands back its starting point
    and reports that its tolerance was not met. *)
Definition stalled_solver (func : R -> option R) (x0 : R) : R * bool := (x0, false).

(** The same iterate, reported as converged. *)
Definition lucky_solver (func : R -> option R) (x0 : R) : R * bool := (x0, true).

(** * Properties *)

(** ** Float primitives *)

Lemma fdiv_zero x : fdiv x 0 = None.
Proof. unfold fdiv. destruct (Req_dec_T 0 0); [done | contradiction]. Qed.

Lemma fdiv_nonzero x y : y <> 0 -> fdiv x y = Some (x / y).
Proof. intros Hy. unfold fdiv. destruct (Req_dec_T y 0); [contradiction | done]. Qed.

Lemma fdiv_Some x y q : fdiv x y = Some q -> y <> 0 /\ q = x / y.
Proof.
  unfold fdiv. destruct (Req_dec_T y 0); [discriminate |].
  intros [= <-]. done.
Qed.

(** ** The tire model *)

Lemma Fx_mu (t : Tire.t) (s F : R) : Tire.Fx t s F = F * Tire.mu t s.
Proof. unfold Tire.Fx, Tire.mu. ring. Qed.

Lemma lonFriction_nonzero (t : Tire.t) (s F : R) :
  F <> 0 -> Tire.lonFriction t s F = Some (Tire.mu t s).
Proof.
  intros HF. unfold Tire.lonFriction.
  rewrite fdiv_nonzero by done. simpl. f_equal.
  rewrite Fx_mu. field. done.
Qed.

Lemma lonFriction_zero_load (t : Tire.t) (s : R) : Tire.lonFriction t s 0 = None.
Proof. unfold Tire.lonFriction. by rewrite fdiv_zero. Qed.

Lemma mu_demo_1 : Tire.mu tire_demo 1 = 1.
Proof.
  unfold Tire.mu, tire_demo. simpl.
  replace (1 * 1 - 0 * (1 * 1 - atan (1 * 1))) with 1 by ring.
  rewrite atan_1. replace (2 * (PI / 4)) with (PI / 2) by field.
  rewrite sin_PI2. ring.
Qed.

(** C1, amended: for a positive load [lonFriction] returns the friction
    coefficient [mu = d*sin(c*atan(b*s - a*(b*s - atan(b*s))))], which is
    its local [Fx = F * mu] divided by the load again; it does not return
    the force. *)
Theorem lonFriction_returns_coefficient (t : Tire.t) (s F : R) :
  0 < F ->
  Tire.Fx t s F = F * Tire.mu t s /\
  Tire.lonFriction t s F = Some (Tire.mu t s).
Proof.
  intros HF. split; [apply Fx_mu |].
  apply lonFriction_nonzero. lra.
Qed.

Lemma lonFriction_returns_coefficient_witness :
  Tire.Fx tire_demo 1 2 = 2 * Tire.mu tire_demo 1 /\
  Tire.lonFriction tire_demo 1 2 = Some (Tire.mu tire_demo 1).
Proof. apply (lonFriction_returns_coefficient tire_demo 1 2). lra. Defined.

(** C1 as stated fails: on the demo tire at slip 1 under load 2 the call
    returns 1, the force would be 2. *)
Lemma lonFriction_is_not_the_force :
  ~ (forall (t : Tire.t) (s F : R),
       0 < F -> Tire.lonFriction t s F = Some (F * Tire.mu t s)).
Proof.
  intros H. specialize (H tire_demo 1 2 ltac:(lra)).
  rewrite lonFriction_nonzero in H by lra.
  rewrite mu_demo_1 in H. injection H as H. lra.
Qed.

(** C7, amended: under zero load the local [Fx] is 0, but the value returned
    is [Fx / normalForce], a division by zero: the call has no result. *)
Theorem lonFriction_zero_load_undefined (t : Tire.t) (s : R) :
  Tire.Fx t s 0 = 0 /\ Tire.lonFriction t s 0 = None.
Proof.
  split; [unfold Tire.Fx; ring | apply lonFriction_zero_load].
Qed.

(** C7 as stated fails: the zero-load call does not return 0. *)
Lemma lonFriction_zero_load_not_zero :
  ~ (forall (t : Tire.t) (s : R), Tire.lonFriction t s 0 = Some 0).
Proof.
  intros H. specialize (H tire_demo 1).
  rewrite lonFriction_zero_load in H. discriminate.
Qed.

Lemma mu_odd (t : Tire.t) (s : R) : Tire.mu t (- s) = - Tire.mu t s.
Proof.
  unfold Tire.mu.
  replace (Tire.b t * - s) with (- (Tire.b t * s)) by ring.
  rewrite atan_opp.
  replace (- (Tire.b t * s) - Tire.a t * (- (Tire.b t * s) - - atan (Tire.b t * s)))
    with (- (Tire.b t * s - Tire.a t * (Tire.b t * s - atan (Tire.b t * s)))) by ring.
  rewrite atan_opp.
  replace (Tire.c t * - atan (Tire.b t * s - Tire.a t * (Tire.b t * s - atan (Tire.b t * s))))
    with (- (Tire.c t * atan (Tire.b t * s - Tire.a t * (Tire.b t * s - atan (Tire.b t * s)))))
    by ring.
  rewrite sin_neg. ring.
Qed.

(** C9: [lonFriction] is odd in the slip, for every load: the value at [-s]
    is the opposite of the value at [s] (and both calls fail together when
    the load is 0). *)
Theorem lonFriction_odd (t : Tire.t) (s F : R) :
  Tire.lonFriction t (- s) F = Ropp <$> Tire.lonFriction t s F.
Proof.
  destruct (Req_dec_T F 0) as [-> | HF].
  - by rewrite !lonFriction_zero_load.
  - rewrite !lonFriction_nonzero by done. simpl. by rewrite mu_odd.
Qed.

(** ** Lists and loops *)

Lemma store_Some (l : list R) (n : nat) (v : R) (l' : list R) :
  store l n v = Some l' <-> (n < length l)%nat /\ l' = <[n := v]> l.
Proof.
  unfold store. destruct (decide (n < length l)%nat); split.
  - by intros [= <-].
  - by intros [_ ->].
  - discriminate.
  - intros [? _]. lia.
Qed.

Lemma store_lt (l : list R) (n : nat) (v : R) :
  (n < length l)%nat -> store l n v = Some (<[n := v]> l).
Proof. intros H. by apply store_Some. Qed.

Lemma length_range_list (n : nat) : length (range_list n) = n.
Proof. unfold range_list. by rewrite length_fmap, length_seq. Qed.

Lemma for_each_app {S : Type} (body : S -> nat -> option S) (s : S) (l1 l2 : list nat) :
  for_each body s (l1 ++ l2) = s' ← for_each body s l1; for_each body s' l2.
Proof.
  revert s. induction l1 as [| n l1 IH]; intros s; simpl; [done |].
  destruct (body s n) as [s1 |]; simpl; [apply IH | done].
Qed.

Lemma for_range_S {S : Type} (body : S -> nat -> option S) (s : S) (k : nat) :
  for_range body s (Datatypes.S k) = s' ← for_range body s k; body s' k.
Proof.
  unfold for_range. rewrite seq_S, for_each_app. simpl.
  destruct (for_each body s (seq 0 k)) as [s1 |]; simpl; [| done].
  by destruct (body s1 k).
Qed.

Lemma for_range_ext {S : Type} (body1 body2 : S -> nat -> option S) (s : S) (k : nat) :
  (forall s1 n, (n < k)%nat -> body1 s1 n = body2 s1 n) ->
  for_range body1 s k = for_range body2 s k.
Proof.
  induction k as [| k IH]; intros H; [done |].
  rewrite !for_range_S, IH by (intros; apply H; lia).
  destruct (for_range body2 s k); simpl; [apply H; lia | done].
Qed.

(** Partial correctness of a counted loop from an invariant. *)
Lemma for_range_inv {S : Type} (I : nat -> S -> Prop) (body : S -> nat -> option S)
    (s s' : S) (k : nat) :
  I 0%nat s ->
  (forall i s1 s2, (i < k)%nat -> I i s1 -> body s1 i = Some s2 -> I (Datatypes.S i) s2) ->
  for_range body s k = Some s' -> I k s'.
Proof.
  intros H0 Hstep. revert s'. induction k as [| k IH]; intros s'.
  - by intros [= <-].
  - rewrite for_range_S. intros (s1 & H1 & H2)%bind_Some.
    apply (Hstep k s1); [lia | | done].
    apply IH; [| done]. intros i ? ? ?. apply Hstep. lia.
Qed.

(** Total correctness of a counted loop from an invariant. *)
Lemma for_range_total {S : Type} (I : nat -> S -> Prop) (body : S -> nat -> option S)
    (s : S) (k : nat) :
  I 0%nat s ->
  (forall i s1, (i < k)%nat -> I i s1 ->
     exists s2, body s1 i = Some s2 /\ I (Datatypes.S i) s2) ->
  exists s', for_range body s k = Some s' /\ I k s'.
Proof.
  intros H0 Hstep. induction k as [| k IH].
  - by exists s.
  - destruct IH as (s1 & H1 & HI); [intros i s1 Hi HI; apply Hstep; [lia | done] |].
    destruct (Hstep k s1 ltac:(lia) HI) as (s2 & H2 & HI2).
    exists s2. split; [| done]. rewrite for_range_S, H1. done.
Qed.

(** A loop that writes [f n] at index [n]: what it returns. *)
Lemma for_range_store (f : nat -> option R) (l l' : list R) (k : nat) :
  for_range (fun acc n => v ← f n; store acc n v) l k = Some l' ->
  length l' = length l /\
  (forall n, (n < k)%nat -> (n < length l)%nat /\ is_Some (f n) /\ l' !! n = f n) /\
  (forall n, (k <= n)%nat -> l' !! n = l !! n).
Proof.
  intros H.
  apply (for_range_inv
    (fun i acc => length acc = length l /\
       (forall n, (n < i)%nat -> (n < length l)%nat /\ is_Some (f n) /\ acc !! n = f n) /\
       (forall n, (i <= n)%nat -> acc !! n = l !! n)) _ _ _ _) in H; [done | |].
  - split; [done |]. split; [intros n Hn; exfalso; lia | done].
  - intros i s1 s2 Hi (Hlen & Hlo & Hhi) (v & Hv & (Hi' & ->)%store_Some)%bind_Some.
    rewrite length_insert. split; [done |]. split.
    + intros n Hn. destruct (decide (n = i)) as [-> | Hne].
      * rewrite list_lookup_insert_eq by done. rewrite Hv. split; [lia | done].
      * rewrite list_lookup_insert_ne by done. apply Hlo. lia.
    + intros n Hn. rewrite list_lookup_insert_ne by lia. apply Hhi. lia.
Qed.

(** A loop that writes [f n] at index [n]: when it returns. *)
Lemma for_range_store_total (f : nat -> option R) (l : list R) (k : nat) :
  (k <= length l)%nat ->
  (forall n, (n < k)%nat -> is_Some (f n)) ->
  exists l', for_range (fun acc n => v ← f n; store acc n v) l k = Some l'.
Proof.
  intros Hk Hf.
  destruct (for_range_total (fun _ acc => length acc = length l)
    (fun acc n => v ← f n; store acc n v) l k) as (l' & H & _); [done | | by exists l'].
  intros i s1 Hi Hlen. destruct (Hf i Hi) as [v Hv].
  exists (<[i := v]> s1). rewrite Hv. simpl.
  rewrite store_lt by lia. by rewrite length_insert.
Qed.

(** A list of four cells is determined by its four reads. *)
Lemma list_four (l : list R) (x0 x1 x2 x3 : R) :
  length l = 4%nat ->
  l !! 0%nat = Some x0 -> l !! 1%nat = Some x1 ->
  l !! 2%nat = Some x2 -> l !! 3%nat = Some x3 ->
  l = [x0; x1; x2; x3].
Proof.
  intros Hlen H0 H1 H2 H3.
  destruct l as [| y0 [| y1 [| y2 [| y3 [| ? ?]]]]]; try discriminate.
  simpl in *. congruence.
Qed.

(** ** [max] and [index] *)

Lemma fold_max_spec (t : list R) (x : R) :
  let m := fold_left (fun best y => if Rlt_dec best y then y else best) t x in
  (m = x \/ m ∈ t) /\ x <= m /\ (forall y, y ∈ t -> y <= m).
Proof.
  revert x. induction t as [| y t IH]; intros x; simpl.
  - split; [by left |]. split; [lra |]. intros y Hy. by apply elem_of_nil in Hy.
  - destruct (Rlt_dec x y) as [Hlt | Hge].
    + destruct (IH y) as (Hin & Hle & Hall). split; [| split].
      * right. destruct Hin as [-> | Hin]; [left | by right].
      * lra.
      * intros z [-> | Hz]%elem_of_cons; [done | by apply Hall].
    + destruct (IH x) as (Hin & Hle & Hall). split; [| split].
      * destruct Hin as [-> | Hin]; [by left | right; by right].
      * done.
      * intros z [-> | Hz]%elem_of_cons; [lra | by apply Hall].
Qed.

Lemma py_max_spec (l : list R) (m : R) :
  py_max l = Some m -> m ∈ l /\ (forall y, y ∈ l -> y <= m).
Proof.
  destruct l as [| x t]; [discriminate |]. intros [= <-].
  destruct (fold_max_spec t x) as (Hin & Hle & Hall). split.
  - destruct Hin as [-> | Hin]; [left | by right].
  - intros y [-> | Hy]%elem_of_cons; [done | by apply Hall].
Qed.

Lemma py_max_total (l : list R) : (0 < length l)%nat -> is_Some (py_max l).
Proof. destruct l; simpl; [lia | by eexists]. Qed.

Lemma py_index_spec (l : list R) (v : R) (k : nat) :
  py_index l v = Some k ->
  l !! k = Some v /\ (forall j x, (j < k)%nat -> l !! j = Some x -> x <> v).
Proof.
  revert k. induction l as [| x t IH]; intros k; simpl; [discriminate |].
  destruct (Req_dec_T x v) as [-> | Hne].
  - intros [= <-]. split; [done |]. intros; lia.
  - intros (k' & Hk' & ->)%fmap_Some. destruct (IH k' Hk') as (H1 & H2).
    split; [done |]. intros [| j] y Hj; simpl.
    + by intros [= <-].
    + apply H2. lia.
Qed.

Lemma py_index_total (l : list R) (v : R) : v ∈ l -> is_Some (py_index l v).
Proof.
  induction l as [| x t IH]; simpl.
  - by intros ?%elem_of_nil.
  - intros Hin. destruct (Req_dec_T x v) as [-> | Hne]; [by eexists |].
    apply elem_of_cons in Hin as [-> | Hin]; [done |].
    destruct (IH Hin) as [k ->]. by eexists.
Qed.

Example py_max_tie : py_max [1; 3; 3; 2] = Some 3.
Proof.
  unfold py_max. simpl.
  destruct (Rlt_dec 1 3); [| lra].
  destruct (Rlt_dec 3 3); [lra |].
  destruct (Rlt_dec 3 2); [lra | done].
Qed.

Example py_index_tie : py_index [1; 3; 3; 2] 3 = Some 1%nat.
Proof.
  simpl. destruct (Req_dec_T 1 3); [lra |].
  destruct (Req_dec_T 3 3); [done | contradiction].
Qed.

(** ** The peak-force search *)

Lemma sample_loaded (self : Sim.t) (s fz : R) (i : nat) :
  Sim.current_Fz self !! i = Some fz -> fz <> 0 ->
  Sim.sample self s i = Some (Tire.mu (Sim.Tire self) s * fz).
Proof.
  intros Hfz Hne. unfold Sim.sample. rewrite Hfz. simpl.
  by rewrite lonFriction_nonzero.
Qed.

(** What the scan computes for a wheel at slip [n/100] is the grid sample
    of the specification. *)
Lemma grid_sample_is_sample (self : Sim.t) (i n : nat) :
  Sim.sample self (INR n / 100) i = grid_sample self i n.
Proof. reflexivity. Qed.

Lemma sample_Some (self : Sim.t) (s : R) (i : nat) (p : R) :
  Sim.sample self s i = Some p ->
  exists fz u,
    Sim.current_Fz self !! i = Some fz /\
    Tire.lonFriction (Sim.Tire self) s fz = Some u /\ p = u * fz.
Proof.
  unfold Sim.sample.
  intros (fz & Hfz & (u & Hu & [= <-])%bind_Some)%bind_Some.
  by exists fz, u.
Qed.

Lemma scan_body_Some (self : Sim.t) (l0 l1 l2 l3 : list R) (n : nat)
    (acc : list R * list R * list R * list R) :
  Sim.scan_body self (l0, l1, l2, l3) n = Some acc <->
  exists p0 p1 p2 p3,
    grid_sample self 0 n = Some p0 /\ grid_sample self 1 n = Some p1 /\
    grid_sample self 2 n = Some p2 /\ grid_sample self 3 n = Some p3 /\
    acc = (l0 ++ [p0], l1 ++ [p1], l2 ++ [p2], l3 ++ [p3]).
Proof.
  unfold Sim.scan_body. rewrite <- !grid_sample_is_sample. split.
  - intros (p0 & H0 & (p1 & H1 & (p2 & H2 & (p3 & H3 & [= <-])%bind_Some)%bind_Some)%bind_Some)%bind_Some.
    by exists p0, p1, p2, p3.
  - intros (p0 & p1 & p2 & p3 & -> & -> & -> & -> & ->). done.
Qed.

(** The list the scan builds for wheel [i] out of the four. *)
Lemma scan_lists (self : Sim.t) (l0 l1 l2 l3 : list R) :
  for_range (Sim.scan_body self) ([], [], [], []) 100 = Some (l0, l1, l2, l3) ->
  forall i lst, [l0; l1; l2; l3] !! i = Some lst ->
    length lst = 100%nat /\
    (forall n, (n < 100)%nat -> is_Some (grid_sample self i n) /\
                               lst !! n = grid_sample self i n).
Proof.
  intros H.
  apply (for_range_inv (fun k '(a0, a1, a2, a3) =>
    forall i lst, [a0; a1; a2; a3] !! i = Some lst ->
      length lst = k /\
      (forall n, (n < k)%nat -> is_Some (grid_sample self i n) /\
                                lst !! n = grid_sample self i n))) in H; [done | |].
  - intros [| [| [| [| i]]]] lst; simpl; intros [= <-]; (split; [done | intros; lia]).
  - intros k [[[a0 a1] a2] a3] acc Hk IH
      (p0 & p1 & p2 & p3 & H0 & H1 & H2 & H3 & ->)%scan_body_Some.
    assert (Hsnoc : forall i a p, [a0; a1; a2; a3] !! i = Some a ->
              grid_sample self i k = Some p ->
              length (a ++ [p]) = S k /\
              (forall n, (n < S k)%nat -> is_Some (grid_sample self i n) /\
                                         (a ++ [p]) !! n = grid_sample self i n)).
    { intros i a p Ha Hp. destruct (IH i a Ha) as (Hlen & Hall).
      rewrite length_app. simpl. split; [lia |].
      intros n Hn. destruct (decide (n = k)) as [-> | Hne].
      - rewrite Hp. split; [done |]. by apply list_lookup_middle.
      - destruct (Hall n ltac:(lia)) as (? & ?). split; [done |].
        rewrite lookup_app_l by lia. done. }
    intros [| [| [| [| i]]]] lst; simpl; intros [= <-].
    + by apply (Hsnoc 0%nat).
    + by apply (Hsnoc 1%nat).
    + by apply (Hsnoc 2%nat).
    + by apply (Hsnoc 3%nat).
Qed.

Lemma scan_total (self : Sim.t) :
  loaded self ->
  exists l0 l1 l2 l3,
    for_range (Sim.scan_body self) ([], [], [], []) 100 = Some (l0, l1, l2, l3).
Proof.
  intros Hl.
  destruct (for_range_total (fun _ _ => True) (Sim.scan_body self) ([], [], [], []) 100)
    as ([[[l0 l1] l2] l3] & H & _); [done | | by exists l0, l1, l2, l3].
  intros k [[[a0 a1] a2] a3] _ _.
  destruct (Hl 0%nat ltac:(lia)) as (f0 & Hf0 & Hn0).
  destruct (Hl 1%nat ltac:(lia)) as (f1 & Hf1 & Hn1).
  destruct (Hl 2%nat ltac:(lia)) as (f2 & Hf2 & Hn2).
  destruct (Hl 3%nat ltac:(lia)) as (f3 & Hf3 & Hn3).
  eexists. split; [| done]. apply scan_body_Some.
  do 4 eexists. rewrite <- !grid_sample_is_sample.
  rewrite (sample_loaded _ _ _ _ Hf0 Hn0), (sample_loaded _ _ _ _ Hf1 Hn1),
    (sample_loaded _ _ _ _ Hf2 Hn2), (sample_loaded _ _ _ _ Hf3 Hn3).
  done.
Qed.

(** Reads through a stack of in-place writes. *)
Ltac look_insert :=
  repeat (rewrite list_lookup_insert_ne by lia);
  repeat (rewrite list_lookup_insert_eq by (rewrite ?length_insert; lia));
  try done.

Lemma pick_peak_Some (lst : list R) (i : nat) (P slip P' slip' : list R) :
  Sim.pick_peak lst i (P, slip) = Some (P', slip') <->
  exists mx ix,
    py_max lst = Some mx /\ py_index lst mx = Some ix /\
    (i < length P)%nat /\ (i < length slip)%nat /\
    P' = <[i := mx]> P /\ slip' = <[i := INR ix / 100]> slip.
Proof.
  unfold Sim.pick_peak. split.
  - intros (mx & Hmx & (P1 & (HP & ->)%store_Some & H)%bind_Some)%bind_Some.
    rewrite list_lookup_insert_eq in H by done. simpl in H.
    apply bind_Some in H as (ix & Hix & (s1 & (Hs & ->)%store_Some & [= <- <-])%bind_Some).
    by exists mx, ix.
  - intros (mx & ix & -> & Hix & HP & Hs & -> & ->). simpl.
    rewrite store_lt by done. simpl.
    rewrite list_lookup_insert_eq by done. simpl. rewrite Hix. simpl.
    by rewrite store_lt.
Qed.

Lemma peak_of_scan (self : Sim.t) (i : nat) (lst : list R) (mx : R) (ix : nat) :
  length lst = 100%nat ->
  (forall n, (n < 100)%nat -> is_Some (grid_sample self i n) /\
                             lst !! n = grid_sample self i n) ->
  py_max lst = Some mx -> py_index lst mx = Some ix ->
  is_peak self i ix mx.
Proof.
  intros Hlen Hall (Hin & Hmax)%py_max_spec (Hix & Hfirst)%py_index_spec.
  assert (Hlt : (ix < 100)%nat).
  { rewrite <- Hlen. by eapply lookup_lt_Some. }
  assert (Hle : forall n, (n < 100)%nat ->
            exists v, grid_sample self i n = Some v /\ lst !! n = Some v /\ v <= mx).
  { intros n Hn. destruct (Hall n Hn) as ([v Hv] & Hl).
    exists v. rewrite Hv in Hl. split; [done |]. split; [done |].
    apply Hmax. by eapply list_elem_of_lookup_2. }
  split; [done |]. split; [| split].
  - destruct (Hall ix Hlt) as (_ & <-). done.
  - intros n Hn. destruct (Hle n Hn) as (v & ? & ? & ?). by exists v.
  - intros n Hn. destruct (Hle n ltac:(lia)) as (v & Hg & Hl & Hv).
    exists v. split; [done |].
    pose proof (Hfirst n v Hn Hl). lra.
Qed.

Lemma peak_search_spec (self : Sim.t) (P slip P' slip' : list R) :
  Sim.peak_search self P slip = Some (P', slip') ->
  (4 <= length P)%nat /\ (4 <= length slip)%nat /\
  length P' = length P /\ length slip' = length slip /\
  (forall i, (i < 4)%nat ->
     exists k pk, P' !! i = Some pk /\ slip' !! i = Some (INR k / 100) /\
                  is_peak self i k pk) /\
  (forall i, (4 <= i)%nat -> P' !! i = P !! i /\ slip' !! i = slip !! i).
Proof.
  unfold Sim.peak_search.
  intros ([[[l0 l1] l2] l3] & Hscan & H)%bind_Some.
  pose proof (scan_lists self l0 l1 l2 l3 Hscan) as Hlists.
  apply bind_Some in H as ([P1 s1] & H0 & H).
  apply bind_Some in H as ([P2 s2] & H1 & H).
  apply bind_Some in H as ([P3 s3] & H2 & H3).
  apply pick_peak_Some in H0 as (m0 & i0 & Hm0 & Hi0 & HP0 & Hs0 & -> & ->).
  apply pick_peak_Some in H1 as (m1 & i1 & Hm1 & Hi1 & HP1 & Hs1 & -> & ->).
  apply pick_peak_Some in H2 as (m2 & i2 & Hm2 & Hi2 & HP2 & Hs2 & -> & ->).
  apply pick_peak_Some in H3 as (m3 & i3 & Hm3 & Hi3 & HP3 & Hs3 & -> & ->).
  rewrite !length_insert in *.
  destruct (Hlists 0%nat l0 eq_refl) as (Hl0 & Hg0).
  destruct (Hlists 1%nat l1 eq_refl) as (Hl1 & Hg1).
  destruct (Hlists 2%nat l2 eq_refl) as (Hl2 & Hg2).
  destruct (Hlists 3%nat l3 eq_refl) as (Hl3 & Hg3).
  repeat split; try lia.
  - intros [| [| [| [| i]]]] Hi; try lia.
    + exists i0, m0. split; [look_insert | split; [look_insert | by apply (peak_of_scan self 0 l0)]].
    + exists i1, m1. split; [look_insert | split; [look_insert | by apply (peak_of_scan self 1 l1)]].
    + exists i2, m2. split; [look_insert | split; [look_insert | by apply (peak_of_scan self 2 l2)]].
    + exists i3, m3. split; [look_insert | split; [look_insert | by apply (peak_of_scan self 3 l3)]].
  - look_insert.
  - look_insert.
Qed.

Lemma peak_search_total (self : Sim.t) (P slip : list R) :
  loaded self -> (4 <= length P)%nat -> (4 <= length slip)%nat ->
  exists P' slip', Sim.peak_search self P slip = Some (P', slip').
Proof.
  intros Hl HP Hs. destruct (scan_total self Hl) as (l0 & l1 & l2 & l3 & Hscan).
  pose proof (scan_lists self l0 l1 l2 l3 Hscan) as Hlists.
  unfold Sim.peak_search. rewrite Hscan. cbn -[Sim.pick_peak].
  assert (Hpick : forall i lst P0 s0, [l0; l1; l2; l3] !! i = Some lst ->
            (i < length P0)%nat -> (i < length s0)%nat ->
            exists mx ix, Sim.pick_peak lst i (P0, s0)
                          = Some (<[i := mx]> P0, <[i := INR ix / 100]> s0)).
  { intros i lst P0 s0 Hlst HP0 Hs0. destruct (Hlists i lst Hlst) as (Hlen & _).
    destruct (py_max_total lst ltac:(lia)) as [mx Hmx].
    destruct (py_index_total lst mx) as [ix Hix]; [by apply py_max_spec in Hmx as [? _] |].
    exists mx, ix. apply pick_peak_Some. by exists mx, ix. }
  destruct (Hpick 0%nat l0 P slip eq_refl) as (m0 & i0 & ->); [lia | lia |]. cbn -[Sim.pick_peak].
  destruct (Hpick 1%nat l1 (<[0%nat := m0]> P) (<[0%nat := INR i0 / 100]> slip) eq_refl)
    as (m1 & i1 & ->); [rewrite length_insert; lia | rewrite length_insert; lia |].
  cbn -[Sim.pick_peak].
  destruct (Hpick 2%nat l2 (<[1%nat := m1]> (<[0%nat := m0]> P))
              (<[1%nat := INR i1 / 100]> (<[0%nat := INR i0 / 100]> slip)) eq_refl)
    as (m2 & i2 & ->); [rewrite !length_insert; lia | rewrite !length_insert; lia |].
  cbn -[Sim.pick_peak].
  destruct (Hpick 3%nat l3 (<[2%nat := m2]> (<[1%nat := m1]> (<[0%nat := m0]> P)))
              (<[2%nat := INR i2 / 100]> (<[1%nat := INR i1 / 100]>
                 (<[0%nat := INR i0 / 100]> slip))) eq_refl)
    as (m3 & i3 & ->); [rewrite !length_insert; lia | rewrite !length_insert; lia |].
  by eexists _, _.
Qed.

Lemma is_peak_unique (self : Sim.t) (i k1 k2 : nat) (p1 p2 : R) :
  is_peak self i k1 p1 -> is_peak self i k2 p2 -> k1 = k2 /\ p1 = p2.
Proof.
  intros (Hk1 & Hg1 & Hle1 & Hlt1) (Hk2 & Hg2 & Hle2 & Hlt2).
  assert (k1 = k2) as ->.
  { destruct (lt_eq_lt_dec k1 k2) as [[Hlt | Heq] | Hgt]; [| done |].
    - destruct (Hlt2 k1 Hlt) as (v & Hv & ?). destruct (Hle1 k2 Hk2) as (v' & Hv' & ?).
      rewrite Hg1 in Hv. rewrite Hg2 in Hv'. injection Hv as <-. injection Hv' as <-. lra.
    - destruct (Hlt1 k2 Hgt) as (v & Hv & ?). destruct (Hle2 k1 Hk1) as (v' & Hv' & ?).
      rewrite Hg2 in Hv. rewrite Hg1 in Hv'. injection Hv as <-. injection Hv' as <-. lra. }
  split; [done |]. congruence.
Qed.

(** ** The amperage-limit loop *)

Section Limit.
Variable root_hybr : (R -> option R) -> R -> R * bool.

Lemma limit_body_spec (self : Sim.t) (st st' : Loc.t) (n len : nat) :
  sized st len ->
  Sim.limit_body root_hybr self st n = Some st' ->
  sized st' len /\
  (exists p0 t0 w0 a0 s0 p t w a s,
     cells st n p0 t0 w0 a0 s0 /\ cells st' n p t w a s /\
     limited root_hybr self n p0 t0 w0 a0 s0 p t w a s) /\
  (forall j, j <> n ->
     Loc.P st' !! j = Loc.P st !! j /\ Loc.T st' !! j = Loc.T st !! j /\
     Loc.w st' !! j = Loc.w st !! j /\ Loc.amps st' !! j = Loc.amps st !! j /\
     Loc.slip st' !! j = Loc.slip st !! j).
Proof.
  intros (HlP & HlT & Hlw & Hla & Hls). unfold Sim.limit_body.
  intros (a0 & Ha0 & H)%bind_Some.
  assert (Hn : (n < len)%nat) by (rewrite <- Hla; by eapply lookup_lt_Some).
  destruct (lookup_lt_is_Some_2 (Loc.P st) n ltac:(lia)) as [p0 Hp0].
  destruct (lookup_lt_is_Some_2 (Loc.T st) n ltac:(lia)) as [t0 Ht0].
  destruct (lookup_lt_is_Some_2 (Loc.w st) n ltac:(lia)) as [w0 Hw0].
  destruct (lookup_lt_is_Some_2 (Loc.slip st) n ltac:(lia)) as [s0 Hs0].
  destruct (Rgt_dec a0 (Battery.Burst (Sim.Battery self))) as [Hgt | Hle].
  - apply bind_Some in H as (amps & (_ & ->)%store_Some & H).
    rewrite list_lookup_insert_eq in H by lia. simpl in H.
    apply bind_Some in H as (ik & (Hk & ->)%fdiv_Some & H).
    apply bind_Some in H as (T & (_ & ->)%store_Some & H).
    rewrite list_lookup_insert_eq in H by lia. simpl in H.
    apply bind_Some in H as (w & (_ & ->)%store_Some & H).
    rewrite list_lookup_insert_eq in H by lia. simpl in H.
    apply bind_Some in H as (q & (Hrw & ->)%fdiv_Some & H).
    apply bind_Some in H as (slip & (_ & ->)%store_Some & H).
    rewrite list_lookup_insert_eq in H by lia. simpl in H.
    apply bind_Some in H as (pn & Hpn & H).
    apply bind_Some in H as (P & (_ & ->)%store_Some & [= <-]).
    simpl. split; [| split].
    + unfold sized. simpl. rewrite !length_insert. done.
    + do 10 eexists. split; [done |]. split.
      * unfold cells. simpl. rewrite !list_lookup_insert_eq by lia. done.
      * left. done.
    + intros j Hj. rewrite !list_lookup_insert_ne by done. done.
  - injection H as <-. split; [done |]. split; [| done].
    exists p0, t0, w0, a0, s0, p0, t0, w0, a0, s0.
    split; [done |]. split; [done |]. by right.
Qed.

Lemma limit_body_total (self : Sim.t) (st : Loc.t) (n len : nat) :
  sized st len -> (n < len)%nat ->
  Motor.k (Sim.Motor self) <> 0 ->
  Tire.r (Sim.Tire self) <> 0 ->
  (forall f, Sim.fsolve root_hybr f 1 <> 0) ->
  (exists fz, Sim.current_Fz self !! n = Some fz /\ fz <> 0) ->
  is_Some (Sim.limit_body root_hybr self st n).
Proof.
  intros (HlP & HlT & Hlw & Hla & Hls) Hn Hk Hr Hsol (fz & Hfz & Hfz0).
  unfold Sim.limit_body.
  destruct (lookup_lt_is_Some_2 (Loc.amps st) n ltac:(lia)) as [a0 ->]. simpl.
  destruct (Rgt_dec a0 (Battery.Burst (Sim.Battery self))); [| done].
  rewrite store_lt by lia. simpl. rewrite list_lookup_insert_eq by lia. simpl.
  rewrite fdiv_nonzero by done. simpl.
  rewrite store_lt by lia. simpl. rewrite list_lookup_insert_eq by lia. simpl.
  rewrite store_lt by lia. simpl. rewrite list_lookup_insert_eq by lia. simpl.
  rewrite fdiv_nonzero by (apply Rmult_integral_contrapositive_currified; [done | apply Hsol]).
  simpl. rewrite store_lt by lia. simpl. rewrite list_lookup_insert_eq by lia. simpl.
  rewrite (sample_loaded _ _ _ _ Hfz Hfz0). simpl.
  rewrite store_lt by lia. done.
Qed.

(** The whole loop: every wheel below [k] has been limited, the others are
    as they were. *)
Lemma limit_loop_spec (self : Sim.t) (st st' : Loc.t) (len k : nat) :
  sized st len ->
  for_range (Sim.limit_body root_hybr self) st k = Some st' ->
  sized st' len /\
  (forall i, (i < k)%nat ->
     exists p0 t0 w0 a0 s0 p t w a s,
       cells st i p0 t0 w0 a0 s0 /\ cells st' i p t w a s /\
       limited root_hybr self i p0 t0 w0 a0 s0 p t w a s).
Proof.
  intros Hsz H.
  apply (for_range_inv (fun j cur =>
    sized cur len /\
    (forall i, (i < j)%nat ->
       exists p0 t0 w0 a0 s0 p t w a s,
         cells st i p0 t0 w0 a0 s0 /\ cells cur i p t w a s /\
         limited root_hybr self i p0 t0 w0 a0 s0 p t w a s) /\
    (forall i, (j <= i)%nat ->
       Loc.P cur !! i = Loc.P st !! i /\ Loc.T cur !! i = Loc.T st !! i /\
       Loc.w cur !! i = Loc.w st !! i /\ Loc.amps cur !! i = Loc.amps st !! i /\
       Loc.slip cur !! i = Loc.slip st !! i))) in H.
  - destruct H as (? & ? & _). done.
  - split; [done |]. split; [intros i Hi; exfalso; lia | done].
  - intros j s1 s2 Hj (Hsz1 & Hlo & Hhi) Hbody.
    destruct (limit_body_spec self s1 s2 j len Hsz1 Hbody) as (Hsz2 & Hcell & Hother).
    split; [done |]. split.
    + intros i Hi. destruct (decide (i = j)) as [-> | Hne].
      * destruct Hcell as (p0 & t0 & w0 & a0 & s0 & p & t & w & a & s & Hc0 & Hc & Hlim).
        exists p0, t0, w0, a0, s0, p, t, w, a, s. split; [| done].
        destruct (Hhi j ltac:(lia)) as (E1 & E2 & E3 & E4 & E5).
        destruct Hc0 as (? & ? & ? & ? & ?). unfold cells. by rewrite <- E1, <- E2, <- E3, <- E4, <- E5.
      * destruct (Hlo i ltac:(lia)) as (p0 & t0 & w0 & a0 & s0 & p & t & w & a & s & Hc0 & Hc & Hlim).
        exists p0, t0, w0, a0, s0, p, t, w, a, s. split; [done |]. split; [| done].
        destruct (Hother i Hne) as (E1 & E2 & E3 & E4 & E5).
        destruct Hc as (? & ? & ? & ? & ?). unfold cells. by rewrite E1, E2, E3, E4, E5.
    + intros i Hi. destruct (Hother i ltac:(lia)) as (E1 & E2 & E3 & E4 & E5).
      destruct (Hhi i ltac:(lia)) as (F1 & F2 & F3 & F4 & F5).
      by rewrite E1, E2, E3, E4, E5.
Qed.

Lemma limit_loop_total (self : Sim.t) (st : Loc.t) (len k : nat) :
  sized st len -> (k <= len)%nat ->
  Motor.k (Sim.Motor self) <> 0 ->
  Tire.r (Sim.Tire self) <> 0 ->
  (forall f, Sim.fsolve root_hybr f 1 <> 0) ->
  (forall n, (n < k)%nat -> exists fz, Sim.current_Fz self !! n = Some fz /\ fz <> 0) ->
  is_Some (for_range (Sim.limit_body root_hybr self) st k).
Proof.
  intros Hsz Hk Hmk Hr Hsol Hfz.
  destruct (for_range_total (fun _ cur => sized cur len)
              (Sim.limit_body root_hybr self) st k) as (st' & H & _); [done | | by exists st'].
  intros i s1 Hi Hs1.
  destruct (limit_body_total self s1 i len Hs1 ltac:(lia) Hmk Hr Hsol (Hfz i Hi)) as [s2 Hs2].
  exists s2. split; [done |].
  by destruct (limit_body_spec self s1 s2 i len Hs1 Hs2) as (? & _).
Qed.

End Limit.

(** ** The wheel-speed, torque and current loops *)

Lemma grid_slip_below_one (k : nat) : (k < 100)%nat -> 1 - INR k / 100 <> 0.
Proof.
  intros Hk. apply lt_INR in Hk.
  replace (INR 100) with 100 in Hk by (simpl; lra). lra.
Qed.

Lemma speed_loop_spec (self : Sim.t) (slip w w' : list R) (k : nat) :
  for_range (Sim.speed_body self slip) w k = Some w' ->
  length w' = length w /\
  (forall n, (n < k)%nat ->
     exists s, slip !! n = Some s /\
       Tire.r (Sim.Tire self) * (1 - s) <> 0 /\
       w' !! n = Some (Sim.current_x_dot self / (Tire.r (Sim.Tire self) * (1 - s)))).
Proof.
  intros H.
  rewrite (for_range_ext _ (fun acc n =>
    v ← (s ← slip !! n; fdiv (Sim.current_x_dot self) (Tire.r (Sim.Tire self) * (1 - s)));
    store acc n v)) in H.
  2:{ intros s1 n _. unfold Sim.speed_body. destruct (slip !! n); simpl; [| done].
      by destruct (fdiv _ _). }
  apply for_range_store in H as (Hlen & Hlo & _). split; [done |].
  intros n Hn. destruct (Hlo n Hn) as (_ & [v Hv] & Hw).
  rewrite Hv in Hw. apply bind_Some in Hv as (s & Hs & (Hne & ->)%fdiv_Some).
  by exists s.
Qed.

Lemma speed_loop_total (self : Sim.t) (slip w : list R) (k : nat) :
  (k <= length w)%nat ->
  (forall n, (n < k)%nat ->
     exists s, slip !! n = Some s /\ Tire.r (Sim.Tire self) * (1 - s) <> 0) ->
  is_Some (for_range (Sim.speed_body self slip) w k).
Proof.
  intros Hk Hs.
  rewrite (for_range_ext _ (fun acc n =>
    v ← (s ← slip !! n; fdiv (Sim.current_x_dot self) (Tire.r (Sim.Tire self) * (1 - s)));
    store acc n v)).
  2:{ intros s1 n _. unfold Sim.speed_body. destruct (slip !! n); simpl; [| done].
      by destruct (fdiv _ _). }
  destruct (for_range_store_total
    (fun n => s ← slip !! n;
              fdiv (Sim.current_x_dot self) (Tire.r (Sim.Tire self) * (1 - s))) w k Hk)
    as [w' Hw']; [| by exists w'].
  intros n Hn. destruct (Hs n Hn) as (s & -> & Hne). simpl.
  rewrite fdiv_nonzero by done. done.
Qed.

Lemma torque_loop_spec (self : Sim.t) (w P T T' : list R) (k : nat) :
  for_range (Sim.torque_body self w P) T k = Some T' ->
  length T' = length T /\
  (forall n, (n < k)%nat ->
     exists wn w_prev pn,
       w !! n = Some wn /\ Sim.current_w self !! n = Some w_prev /\ P !! n = Some pn /\
       T' !! n = Some (Tire.J (Sim.Tire self) * (wn - w_prev)
                       + Tire.r (Sim.Tire self) * pn)).
Proof.
  intros H.
  rewrite (for_range_ext _ (fun acc n =>
    v ← (wn ← w !! n; w_prev ← Sim.current_w self !! n; pn ← P !! n;
         Some (Tire.J (Sim.Tire self) * (wn - w_prev) + Tire.r (Sim.Tire self) * pn));
    store acc n v)) in H.
  2:{ intros s1 n _. unfold Sim.torque_body. destruct (w !! n); simpl; [| done].
      destruct (Sim.current_w self !! n); simpl; [| done].
      by destruct (P !! n). }
  apply for_range_store in H as (Hlen & Hlo & _). split; [done |].
  intros n Hn. destruct (Hlo n Hn) as (_ & [v Hv] & HT).
  rewrite Hv in HT.
  apply bind_Some in Hv as (wn & Hwn & (w_prev & Hwp & (pn & Hpn & [= <-])%bind_Some)%bind_Some).
  by exists wn, w_prev, pn.
Qed.

Lemma torque_loop_total (self : Sim.t) (w P T : list R) (k : nat) :
  (k <= length T)%nat -> (k <= length w)%nat -> (k <= length P)%nat ->
  (k <= length (Sim.current_w self))%nat ->
  is_Some (for_range (Sim.torque_body self w P) T k).
Proof.
  intros HT Hw HP Hcw.
  rewrite (for_range_ext _ (fun acc n =>
    v ← (wn ← w !! n; w_prev ← Sim.current_w self !! n; pn ← P !! n;
         Some (Tire.J (Sim.Tire self) * (wn - w_prev) + Tire.r (Sim.Tire self) * pn));
    store acc n v)).
  2:{ intros s1 n _. unfold Sim.torque_body. destruct (w !! n); simpl; [| done].
      destruct (Sim.current_w self !! n); simpl; [| done].
      by destruct (P !! n). }
  destruct (for_range_store_total
    (fun n => wn ← w !! n; w_prev ← Sim.current_w self !! n; pn ← P !! n;
        Some (Tire.J (Sim.Tire self) * (wn - w_prev) + Tire.r (Sim.Tire self) * pn)) T k HT)
    as [T' HT']; [| by exists T'].
  intros n Hn.
  destruct (lookup_lt_is_Some_2 w n ltac:(lia)) as [? ->].
  destruct (lookup_lt_is_Some_2 (Sim.current_w self) n ltac:(lia)) as [? ->].
  destruct (lookup_lt_is_Some_2 P n ltac:(lia)) as [? ->]. done.
Qed.

Lemma amps_loop_spec (self : Sim.t) (T amps amps' : list R) (k : nat) :
  for_range (Sim.amps_body self T) amps k = Some amps' ->
  length amps' = length amps /\
  (forall n, (n < k)%nat ->
     exists tn, T !! n = Some tn /\
       Motor.Kt (Sim.Motor self) <> 0 /\ Motor.k (Sim.Motor self) <> 0 /\
       amps' !! n = Some (tn / Motor.Kt (Sim.Motor self) * (1 / Motor.k (Sim.Motor self)))).
Proof.
  intros H.
  rewrite (for_range_ext _ (fun acc n =>
    v ← (tn ← T !! n; q ← fdiv tn (Motor.Kt (Sim.Motor self));
         ik ← fdiv 1 (Motor.k (Sim.Motor self)); Some (q * ik));
    store acc n v)) in H.
  2:{ intros s1 n _. unfold Sim.amps_body. destruct (T !! n); simpl; [| done].
      destruct (fdiv _ (Motor.Kt _)); simpl; [| done].
      by destruct (fdiv 1 _). }
  apply for_range_store in H as (Hlen & Hlo & _). split; [done |].
  intros n Hn. destruct (Hlo n Hn) as (_ & [v Hv] & HT).
  rewrite Hv in HT.
  apply bind_Some in Hv as (tn & Htn & (q & (HKt & ->)%fdiv_Some
    & (ik & (Hk & ->)%fdiv_Some & [= <-])%bind_Some)%bind_Some).
  by exists tn.
Qed.

Lemma amps_loop_total (self : Sim.t) (T amps : list R) (k : nat) :
  (k <= length amps)%nat -> (k <= length T)%nat ->
  Motor.Kt (Sim.Motor self) <> 0 -> Motor.k (Sim.Motor self) <> 0 ->
  is_Some (for_range (Sim.amps_body self T) amps k).
Proof.
  intros Ha HT HKt Hk.
  rewrite (for_range_ext _ (fun acc n =>
    v ← (tn ← T !! n; q ← fdiv tn (Motor.Kt (Sim.Motor self));
         ik ← fdiv 1 (Motor.k (Sim.Motor self)); Some (q * ik));
    store acc n v)).
  2:{ intros s1 n _. unfold Sim.amps_body. destruct (T !! n); simpl; [| done].
      destruct (fdiv _ (Motor.Kt _)); simpl; [| done].
      by destruct (fdiv 1 _). }
  destruct (for_range_store_total
    (fun n => tn ← T !! n; q ← fdiv tn (Motor.Kt (Sim.Motor self));
         ik ← fdiv 1 (Motor.k (Sim.Motor self)); Some (q * ik)) amps k Ha)
    as [a' Ha']; [| by exists a'].
  intros n Hn.
  destruct (lookup_lt_is_Some_2 T n ltac:(lia)) as [? ->]. simpl.
  rewrite !fdiv_nonzero by done. done.
Qed.

(** ** The working lists of one tick *)

Section Wheels.
Variable root_hybr : (R -> option R) -> R -> R * bool.

(** Every wheel's cells are the demanded values passed through the limit. *)
Lemma wheel_lists_spec (self : Sim.t) (st : Loc.t) :
  length (Sim.current_Fz self) = 4%nat ->
  Sim.wheel_lists root_hybr self = Some st ->
  sized st 4 /\
  (forall i, (i < 4)%nat ->
     exists p0 t0 w0 a0 s0 p t w a s,
       demanded self i p0 t0 w0 a0 s0 /\ cells st i p t w a s /\
       limited root_hybr self i p0 t0 w0 a0 s0 p t w a s).
Proof.
  intros Hlen. unfold Sim.wheel_lists. rewrite Hlen.
  intros ([P slip] & Hpeak & H)%bind_Some.
  apply peak_search_spec in Hpeak as (_ & _ & HlP & Hls & Hpk & _).
  rewrite length_range_list in HlP, Hls. rewrite HlP in H.
  apply bind_Some in H as (w & Hw & H).
  apply bind_Some in H as (T & HT & H).
  apply bind_Some in H as (amps & Ha & H).
  apply speed_loop_spec in Hw as (Hlw & Hw).
  apply torque_loop_spec in HT as (HlT & HT).
  apply amps_loop_spec in Ha as (Hla & Ha).
  rewrite length_range_list in Hlw, HlT, Hla.
  apply (limit_loop_spec root_hybr self _ st 4) in H as (Hsz & Hlim); [| done].
  split; [done |]. intros i Hi.
  destruct (Hlim i Hi) as (p0 & t0 & w0 & a0 & s0 & p & t & w1 & a & s & Hc0 & Hc & Hl).
  exists p0, t0, w0, a0, s0, p, t, w1, a, s. split; [| done].
  destruct Hc0 as (Hp0 & Ht0 & Hw0 & Ha0 & Hs0). simpl in *.
  destruct (Hpk i Hi) as (k & pk & HPi & Hsi & Hpeak).
  destruct (Hw i Hi) as (s' & Hs' & Hrs & Hwi).
  destruct (HT i Hi) as (wn & w_prev & pn & Hwn & Hwp & Hpn & HTi).
  destruct (Ha i Hi) as (tn & Htn & HKt & Hk & Hai).
  simplify_eq.
  exists k, w_prev. split; [done |]. split; [done |].
  split; [intros Hr; apply Hrs; rewrite Hr; ring | done].
Qed.

(** The working lists exist whenever no division by zero can occur. *)
Lemma wheel_lists_total (self : Sim.t) :
  length (Sim.current_Fz self) = 4%nat ->
  length (Sim.current_w self) = 4%nat ->
  loaded self ->
  Tire.r (Sim.Tire self) <> 0 ->
  Motor.Kt (Sim.Motor self) <> 0 ->
  Motor.k (Sim.Motor self) <> 0 ->
  (forall f, Sim.fsolve root_hybr f 1 <> 0) ->
  is_Some (Sim.wheel_lists root_hybr self).
Proof.
  intros Hlen Hlw Hload Hr HKt Hk Hsol. unfold Sim.wheel_lists. rewrite Hlen.
  destruct (peak_search_total self (range_list 4) (range_list 4) Hload)
    as (P & slip & Hpeak); [by rewrite length_range_list.. |].
  rewrite Hpeak. cbn [mbind option_bind].
  apply peak_search_spec in Hpeak as (_ & _ & HlP & Hls & Hpk & _).
  rewrite length_range_list in HlP, Hls. rewrite HlP.
  destruct (speed_loop_total self slip (range_list 4) 4) as [w Hw].
  { by rewrite length_range_list. }
  { intros n Hn. destruct (Hpk n Hn) as (k & pk & _ & Hs & Hk100 & _).
    exists (INR k / 100). split; [done |].
    apply Rmult_integral_contrapositive_currified; [done |].
    by apply grid_slip_below_one. }
  rewrite Hw. cbn [mbind option_bind].
  apply speed_loop_spec in Hw as (Hlw' & _). rewrite length_range_list in Hlw'.
  destruct (torque_loop_total self w P (range_list 4) 4) as [T HT];
    [rewrite ?length_range_list; lia.. |].
  rewrite HT. cbn [mbind option_bind].
  apply torque_loop_spec in HT as (HlT & _). rewrite length_range_list in HlT.
  destruct (amps_loop_total self T (range_list 4) 4) as [amps Ha];
    [rewrite ?length_range_list; lia.. | done | done |].
  rewrite Ha. cbn [mbind option_bind].
  apply amps_loop_spec in Ha as (Hla & _). rewrite length_range_list in Hla.
  apply (limit_loop_total root_hybr self _ 4 4); try done.
Qed.

End Wheels.

(** ** The load loop *)

Lemma load_loop_spec (self : Sim.t) (wtfr : R) (Fz Fz' : list R) (k : nat) :
  for_range (Sim.load_body self wtfr) Fz k = Some Fz' ->
  length Fz' = length Fz /\
  (forall n, (n < k)%nat ->
     exists f0, Sim.inital_Fz self !! n = Some f0 /\
       Fz' !! n = Some (if decide (n <= 1)%nat then f0 - wtfr / 2 else f0 + wtfr / 2)).
Proof.
  intros H.
  rewrite (for_range_ext _ (fun acc n =>
    v ← (f0 ← Sim.inital_Fz self !! n;
         Some (if decide (n <= 1)%nat then f0 - wtfr / 2 else f0 + wtfr / 2));
    store acc n v)) in H.
  2:{ intros s1 n _. unfold Sim.load_body. destruct (Sim.inital_Fz self !! n); simpl; [| done].
      by destruct (decide (n <= 1)%nat). }
  apply for_range_store in H as (Hlen & Hlo & _). split; [done |].
  intros n Hn. destruct (Hlo n Hn) as (_ & [v Hv] & HF).
  rewrite Hv in HF. apply bind_Some in Hv as (f0 & Hf0 & [= <-]).
  by exists f0.
Qed.

Lemma load_loop_total (self : Sim.t) (wtfr : R) (Fz : list R) (k : nat) :
  (k <= length Fz)%nat -> (k <= length (Sim.inital_Fz self))%nat ->
  is_Some (for_range (Sim.load_body self wtfr) Fz k).
Proof.
  intros HF Hi.
  rewrite (for_range_ext _ (fun acc n =>
    v ← (f0 ← Sim.inital_Fz self !! n;
         Some (if decide (n <= 1)%nat then f0 - wtfr / 2 else f0 + wtfr / 2));
    store acc n v)).
  2:{ intros s1 n _. unfold Sim.load_body. destruct (Sim.inital_Fz self !! n); simpl; [| done].
      by destruct (decide (n <= 1)%nat). }
  destruct (for_range_store_total
    (fun n => f0 ← Sim.inital_Fz self !! n;
         Some (if decide (n <= 1)%nat then f0 - wtfr / 2 else f0 + wtfr / 2)) Fz k HF)
    as [F' HF']; [| by exists F'].
  intros n Hn.
  destruct (lookup_lt_is_Some_2 (Sim.inital_Fz self) n ltac:(lia)) as [? ->]. done.
Qed.

(** ** One tick *)

Section Tick.
Variable root_hybr : (R -> option R) -> R -> R * bool.

(** What a tick commits. *)
Lemma tick_spec (self self' : Sim.t) :
  length (Sim.current_Fz self) = 4%nat ->
  Sim.tick root_hybr self = Some self' ->
  exists st x_ddot row,
    Sim.wheel_lists root_hybr self = Some st /\
    Sim.Vehicle self' = Sim.Vehicle self /\ Sim.Motor self' = Sim.Motor self /\
    Sim.Tire self' = Sim.Tire self /\ Sim.Battery self' = Sim.Battery self /\
    Sim.dt self' = Sim.dt self /\ Sim.runtime self' = Sim.runtime self /\
    Sim.inital_Fz self' = Sim.inital_Fz self /\
    Sim.current_amps self' = Loc.amps st /\ Sim.current_P self' = Loc.P st /\
    Sim.current_slip self' = Loc.slip st /\ Sim.current_w self' = Loc.w st /\
    Vehicle.m (Sim.Vehicle self) <> 0 /\ Vehicle.l (Sim.Vehicle self) <> 0 /\
    Sim.current_x_ddot self' = x_ddot /\
    Sim.current_time self' = Sim.current_time self + Sim.dt self /\
    length (Sim.current_Fz self') = 4%nat /\
    (forall n, (n < 4)%nat ->
       exists f0, Sim.inital_Fz self !! n = Some f0 /\
         let wtfr := Vehicle.h (Sim.Vehicle self) / Vehicle.l (Sim.Vehicle self)
                     * Vehicle.m (Sim.Vehicle self) * x_ddot / 9.81 in
         Sim.current_Fz self' !! n
         = Some (if decide (n <= 1)%nat then f0 - wtfr / 2 else f0 + wtfr / 2)) /\
    Sim.output_data self' = Some row /\
    Sim.output self' = Sim.output self ++ [row].
Proof.
  intros Hlen. unfold Sim.tick.
  intros ([[[[[[[[x xd] xdd] time] amps] Fz] P] slip] w] & Hacc & H)%bind_Some.
  apply bind_Some in H as (row & Hrow & [= <-]).
  unfold Sim.accel_FrictionLimited in Hacc.
  apply bind_Some in Hacc as (st & Hst & Hacc).
  apply bind_Some in Hacc as (xdd' & (Hm & ->)%fdiv_Some & Hacc).
  apply bind_Some in Hacc as (hl & (Hl & ->)%fdiv_Some & Hacc).
  apply bind_Some in Hacc as (Fz' & HFz & Hacc).
  injection Hacc as <- <- <- <- <- <- <- <- <-.
  destruct (wheel_lists_spec root_hybr self st Hlen Hst) as ((HlP & _) & _).
  rewrite HlP, Hlen in HFz.
  apply load_loop_spec in HFz as (HlF & HF). rewrite length_range_list in HlF.
  exists st, ((py_sum (Loc.P st)
     - Vehicle.cd (Sim.Vehicle self) * 1.225 * Sim.current_x_dot self ^ 2
       * Vehicle.A (Sim.Vehicle self) / 2) / Vehicle.m (Sim.Vehicle self)), row.
  simpl. repeat (split; [done |]). done.
Qed.

Lemma tick_total (self : Sim.t) :
  length (Sim.current_Fz self) = 4%nat ->
  length (Sim.current_w self) = 4%nat ->
  length (Sim.inital_Fz self) = 4%nat ->
  loaded self ->
  Tire.r (Sim.Tire self) <> 0 ->
  Motor.Kt (Sim.Motor self) <> 0 ->
  Motor.k (Sim.Motor self) <> 0 ->
  Vehicle.m (Sim.Vehicle self) <> 0 ->
  Vehicle.l (Sim.Vehicle self) <> 0 ->
  (forall f, Sim.fsolve root_hybr f 1 <> 0) ->
  is_Some (Sim.tick root_hybr self).
Proof.
  intros Hlen Hlw Hli Hload Hr HKt Hk Hm Hl Hsol.
  destruct (wheel_lists_total root_hybr self Hlen Hlw Hload Hr HKt Hk Hsol) as [st Hst].
  destruct (wheel_lists_spec root_hybr self st Hlen Hst) as ((HlP & _ & Hlw' & Hla & Hls) & _).
  unfold Sim.tick, Sim.accel_FrictionLimited. rewrite Hst. cbn [mbind option_bind].
  rewrite (fdiv_nonzero _ _ Hm). cbn [mbind option_bind].
  rewrite (fdiv_nonzero _ _ Hl). cbn [mbind option_bind].
  rewrite HlP, Hlen.
  match goal with |- context [for_range (Sim.load_body self ?wt) ?F 4] =>
    destruct (load_loop_total self wt F 4) as [Fz HFz];
      [rewrite length_range_list; lia | lia |];
    rewrite HFz; apply load_loop_spec in HFz as (HlF & _)
  end.
  rewrite length_range_list in HlF. cbn [mbind option_bind].
  unfold Sim.output_data, Sim.update_values. simpl.
  destruct (Loc.amps st) as [| ? [| ? [| ? [| ? ?]]]]; try discriminate.
  destruct Fz as [| ? [| ? [| ? [| ? ?]]]]; try discriminate.
  destruct (Loc.P st) as [| ? [| ? [| ? [| ? ?]]]]; try discriminate.
  destruct (Loc.slip st) as [| ? [| ? [| ? [| ? ?]]]]; try discriminate.
  destruct (Loc.w st) as [| ? [| ? [| ? [| ? ?]]]]; try discriminate.
  simpl. done.
Qed.

End Tick.

(** ** Runs *)

Lemma init_started (vehicle : Vehicle.t) (motor : Motor.t) (tire : Tire.t)
    (battery : Battery.t) (dt runtime : R) (st0 : Sim.t) :
  Sim.init vehicle motor tire battery dt runtime = Some st0 <->
  Vehicle.l vehicle <> 0 /\ st0 = started vehicle motor tire battery dt runtime.
Proof.
  unfold Sim.init, started. split.
  - intros (ff & (Hl & ->)%fdiv_Some & (fr & (_ & ->)%fdiv_Some & [= <-])%bind_Some)%bind_Some.
    done.
  - intros (Hl & ->). rewrite !fdiv_nonzero by done. done.
Qed.

Lemma motor_init_frc : Motor.init 2000 0.8 = Some motor_frc.
Proof. unfold Motor.init. rewrite fdiv_nonzero by lra. done. Qed.

Lemma init_frc :
  Sim.init vehicle_frc motor_frc tire_frc battery_frc 0.01 20 = Some sim_frc.
Proof. apply init_started. split; [simpl; lra | done]. Qed.

Lemma same_setup_refl (s : Sim.t) : same_setup s s.
Proof. by repeat split. Qed.

Lemma same_setup_trans (s1 s2 s3 : Sim.t) :
  same_setup s1 s2 -> same_setup s2 s3 -> same_setup s1 s3.
Proof.
  intros (? & ? & ? & ? & ? & ? & ?) (? & ? & ? & ? & ? & ? & ?).
  repeat split; congruence.
Qed.

Section Runs.
Variable root_hybr : (R -> option R) -> R -> R * bool.

Lemma run_S (self : Sim.t) (n : nat) :
  Sim.run root_hybr self (S n) = s ← Sim.run root_hybr self n; Sim.tick root_hybr s.
Proof. unfold Sim.run. apply for_range_S. Qed.

Lemma tick_shape (self self' : Sim.t) :
  four_wheels self -> Sim.tick root_hybr self = Some self' ->
  four_wheels self' /\ same_setup self self'.
Proof.
  intros (HF & Hw & Hi & Ha) Ht.
  destruct (tick_spec root_hybr self self' HF Ht)
    as (st & xdd & row & Hst & E1 & E2 & E3 & E4 & E5 & E6 & E7 & Ea & EP & Es & Ew
        & _ & _ & _ & _ & HF' & _).
  destruct (wheel_lists_spec root_hybr self st HF Hst) as ((? & ? & ? & ? & ?) & _).
  split; [| done]. unfold four_wheels. rewrite E7, Ea, Ew. done.
Qed.

(** Every state of a run has four wheels and the setup it started from. *)
Lemma run_shape (self self' : Sim.t) (n : nat) :
  four_wheels self -> Sim.run root_hybr self n = Some self' ->
  four_wheels self' /\ same_setup self self'.
Proof.
  intros H4. revert self'. induction n as [| n IH]; intros self'.
  - intros [= <-]. split; [done | apply same_setup_refl].
  - rewrite run_S. intros (s & Hs & Ht)%bind_Some.
    destruct (IH s Hs) as (H4s & Hsame).
    destruct (tick_shape s self' H4s Ht) as (? & ?).
    split; [done |]. by eapply same_setup_trans.
Qed.

Lemma started_four_wheels (vehicle : Vehicle.t) (motor : Motor.t) (tire : Tire.t)
    (battery : Battery.t) (dt runtime : R) :
  four_wheels (started vehicle motor tire battery dt runtime).
Proof. by repeat split. Qed.

End Runs.

(** ** The reference states *)

Lemma stalled_solver_nonzero (f : R -> option R) : Sim.fsolve stalled_solver f 1 <> 0.
Proof. unfold Sim.fsolve, stalled_solver. simpl. lra. Qed.

Lemma started_loaded (vehicle : Vehicle.t) (motor : Motor.t) (tire : Tire.t)
    (battery : Battery.t) (dt runtime : R) :
  Vehicle.m vehicle * Vehicle.b vehicle / Vehicle.l vehicle <> 0 ->
  Vehicle.m vehicle * Vehicle.a vehicle / Vehicle.l vehicle <> 0 ->
  loaded (started vehicle motor tire battery dt runtime).
Proof.
  intros Hf Hr [| [| [| [| i]]]] Hi; try lia; simpl; eexists; (split; [done | lra]).
Qed.

Lemma sim_frc_loaded : loaded sim_frc.
Proof. apply started_loaded; simpl; lra. Qed.

Lemma sim_frc_tick : is_Some (Sim.tick stalled_solver sim_frc).
Proof.
  apply tick_total; try done; try (simpl; lra).
  - apply sim_frc_loaded.
  - apply stalled_solver_nonzero.
Qed.

Lemma sim_frc_run_1 : is_Some (Sim.run stalled_solver sim_frc 1).
Proof. rewrite run_S. simpl. apply sim_frc_tick. Qed.

(** ** C4: the peak-force search *)

(** C4: for every wheel, the search over the grid [0, 0.01, ..., 0.99]
    returns a result, and it is the argmax of
    [lonFriction(s, Fz) * Fz] over that grid.  With [fz] the wheel's load:
    the force [P[i]] is [lonFriction(k/100, fz) * fz], that is
    [mu(k/100) * fz]; no sample [mu(n/100) * fz] of the grid is above it;
    and the slip [slip[i] = k/100] is the lowest grid point that reaches it,
    every earlier sample being strictly below. *)
Theorem peak_search_is_grid_argmax (self : Sim.t) (P slip : list R) :
  loaded self -> (4 <= length P)%nat -> (4 <= length slip)%nat ->
  exists P' slip',
    Sim.peak_search self P slip = Some (P', slip') /\
    forall i, (i < 4)%nat ->
      exists k pk fz,
        Sim.current_Fz self !! i = Some fz /\
        P' !! i = Some pk /\ slip' !! i = Some (INR k / 100) /\
        (k < 100)%nat /\
        Tire.lonFriction (Sim.Tire self) (INR k / 100) fz
        = Some (Tire.mu (Sim.Tire self) (INR k / 100)) /\
        pk = Tire.mu (Sim.Tire self) (INR k / 100) * fz /\
        (forall n, (n < 100)%nat ->
           Tire.lonFriction (Sim.Tire self) (INR n / 100) fz
           = Some (Tire.mu (Sim.Tire self) (INR n / 100)) /\
           Tire.mu (Sim.Tire self) (INR n / 100) * fz <= pk) /\
        (forall n, (n < k)%nat ->
           Tire.mu (Sim.Tire self) (INR n / 100) * fz < pk) /\
        is_peak self i k pk.
Proof.
  intros Hl HP Hs.
  destruct (peak_search_total self P slip Hl HP Hs) as (P' & slip' & H).
  exists P', slip'. split; [done |].
  apply peak_search_spec in H as (_ & _ & _ & _ & Hpk & _).
  intros i Hi. destruct (Hpk i Hi) as (k & pk & HP' & Hs' & Hpeak).
  destruct (Hl i Hi) as (fz & Hfz & Hne).
  assert (Hg : forall n, grid_sample self i n
                         = Some (Tire.mu (Sim.Tire self) (INR n / 100) * fz)).
  { intros n. rewrite <- grid_sample_is_sample. by apply sample_loaded. }
  pose proof Hpeak as (Hk & Hgk & Hle & Hlt).
  rewrite Hg in Hgk. injection Hgk as <-.
  exists k, (Tire.mu (Sim.Tire self) (INR k / 100) * fz), fz.
  split; [done |]. split; [done |]. split; [done |]. split; [done |].
  split; [by apply lonFriction_nonzero |]. split; [done |]. split; [| split; [| done]].
  - intros n Hn. split; [by apply lonFriction_nonzero |].
    destruct (Hle n Hn) as (v & Hv & Hvp). rewrite Hg in Hv. by injection Hv as <-.
  - intros n Hn.
    destruct (Hlt n Hn) as (v & Hv & Hvp). rewrite Hg in Hv. by injection Hv as <-.
Qed.

Lemma peak_search_is_grid_argmax_witness :
  exists P' slip',
    Sim.peak_search sim_frc (range_list 4) (range_list 4) = Some (P', slip') /\
    forall i, (i < 4)%nat ->
      exists k pk fz,
        Sim.current_Fz sim_frc !! i = Some fz /\
        P' !! i = Some pk /\ slip' !! i = Some (INR k / 100) /\
        (k < 100)%nat /\
        Tire.lonFriction tire_frc (INR k / 100) fz
        = Some (Tire.mu tire_frc (INR k / 100)) /\
        pk = Tire.mu tire_frc (INR k / 100) * fz /\
        (forall n, (n < 100)%nat ->
           Tire.lonFriction tire_frc (INR n / 100) fz
           = Some (Tire.mu tire_frc (INR n / 100)) /\
           Tire.mu tire_frc (INR n / 100) * fz <= pk) /\
        (forall n, (n < k)%nat -> Tire.mu tire_frc (INR n / 100) * fz < pk) /\
        is_peak sim_frc i k pk.
Proof.
  apply (peak_search_is_grid_argmax sim_frc (range_list 4) (range_list 4)).
  - apply sim_frc_loaded.
  - rewrite length_range_list. lia.
  - rewrite length_range_list. lia.
Defined.

(** ** C5: the current limit *)

Section Amps.
Variable root_hybr : (R -> option R) -> R -> R * bool.

Lemma limited_amps (self : Sim.t) (n : nat) (p0 t0 w0 a0 s0 p t w a s : R) :
  limited root_hybr self n p0 t0 w0 a0 s0 p t w a s ->
  a <= Battery.Burst (Sim.Battery self).
Proof.
  intros [(_ & _ & -> & _) | (Hle & _ & _ & _ & -> & _)]; [lra |].
  by apply Rnot_gt_le.
Qed.

Lemma tick_amps (self self' : Sim.t) (i : nat) :
  four_wheels self -> Sim.tick root_hybr self = Some self' -> (i < 4)%nat ->
  exists a, Sim.current_amps self' !! i = Some a /\
            a <= Battery.Burst (Sim.Battery self).
Proof.
  intros (HF & _) Ht Hi.
  destruct (tick_spec root_hybr self self' HF Ht)
    as (st & xdd & row & Hst & _ & _ & _ & _ & _ & _ & _ & Ea & _).
  destruct (wheel_lists_spec root_hybr self st HF Hst) as (_ & Hw).
  destruct (Hw i Hi) as (p0 & t0 & w0 & a0 & s0 & p & t & w & a & s & _ & Hc & Hl).
  exists a. rewrite Ea. destruct Hc as (_ & _ & _ & Ha & _).
  split; [done |]. by eapply limited_amps.
Qed.

End Amps.

(** C5: in every state of a run, the initial one included, each of the four
    wheels has a current, and it is at most [Battery.Burst].  The initial
    currents are 0, so the initial state asks for a burst current that is not
    negative; the states a tick commits need nothing. *)
Theorem amps_within_burst (root_hybr : (R -> option R) -> R -> R * bool)
    (vehicle : Vehicle.t) (motor : Motor.t) (tire : Tire.t) (battery : Battery.t)
    (dt runtime : R) (st0 st : Sim.t) (n i : nat) :
  Sim.init vehicle motor tire battery dt runtime = Some st0 ->
  (n = 0%nat -> 0 <= Battery.Burst battery) ->
  Sim.run root_hybr st0 n = Some st ->
  (i < 4)%nat ->
  exists a, Sim.current_amps st !! i = Some a /\ a <= Battery.Burst battery.
Proof.
  intros (_ & ->)%init_started Hb Hrun Hi. destruct n as [| n].
  - injection Hrun as <-. exists 0.
    split; [| by apply Hb].
    destruct i as [| [| [| [| i]]]]; try done. lia.
  - rewrite run_S in Hrun. apply bind_Some in Hrun as (s & Hs & Ht).
    destruct (run_shape root_hybr _ s n (started_four_wheels _ _ _ _ _ _) Hs)
      as (H4 & _ & _ & _ & HB & _).
    destruct (tick_amps root_hybr s st i H4 Ht Hi) as (a & Ha & Hle).
    exists a. split; [done |]. by rewrite HB in Hle.
Qed.

Lemma amps_within_burst_witness :
  (exists a, Sim.current_amps sim_frc !! 0%nat = Some a /\
             a <= Battery.Burst battery_frc) /\
  (exists st, Sim.run stalled_solver sim_frc 1 = Some st /\
     exists a, Sim.current_amps st !! 0%nat = Some a /\ a <= Battery.Burst battery_frc).
Proof.
  split.
  - apply (amps_within_burst stalled_solver vehicle_frc motor_frc tire_frc battery_frc
             0.01 20 sim_frc sim_frc 0 0).
    + apply init_frc.
    + intros _. simpl. lra.
    + reflexivity.
    + lia.
  - destruct sim_frc_run_1 as [st Hst]. exists st. split; [done |].
    apply (amps_within_burst stalled_solver vehicle_frc motor_frc tire_frc battery_frc
             0.01 20 sim_frc st 1 0).
    + apply init_frc.
    + intros H. discriminate H.
    + exact Hst.
    + lia.
Defined.

(** ** C2 and C10: the normal loads *)

Section Loads.
Variable root_hybr : (R -> option R) -> R -> R * bool.

(** The loads a tick commits: the static ones, shifted by half the weight
    transfer, forwards for the rear pair and backwards for the front pair. *)
Lemma tick_loads (self self' : Sim.t) (f0 f1 f2 f3 : R) :
  four_wheels self -> Sim.tick root_hybr self = Some self' ->
  Sim.inital_Fz self = [f0; f1; f2; f3] ->
  let wtfr := Vehicle.h (Sim.Vehicle self) / Vehicle.l (Sim.Vehicle self)
              * Vehicle.m (Sim.Vehicle self) * Sim.current_x_ddot self' / 9.81 in
  Sim.current_Fz self' = [f0 - wtfr / 2; f1 - wtfr / 2; f2 + wtfr / 2; f3 + wtfr / 2].
Proof.
  intros (HF & _) Ht Hi.
  destruct (tick_spec root_hybr self self' HF Ht)
    as (st & xdd & row & _ & _ & _ & _ & _ & _ & _ & _ & _ & _ & _ & _ & _ & _
        & Hxdd & _ & Hlen & HFz & _).
  rewrite Hxdd. rewrite Hi in HFz. simpl.
  apply list_four; [done | ..].
  - destruct (HFz 0%nat ltac:(lia)) as (f & [= <-] & ->). done.
  - destruct (HFz 1%nat ltac:(lia)) as (f & [= <-] & ->). done.
  - destruct (HFz 2%nat ltac:(lia)) as (f & [= <-] & ->). done.
  - destruct (HFz 3%nat ltac:(lia)) as (f & [= <-] & ->). done.
Qed.

(** The loads in every state of a run. *)
Lemma run_loads (vehicle : Vehicle.t) (motor : Motor.t) (tire : Tire.t)
    (battery : Battery.t) (dt runtime : R) (st : Sim.t) (n : nat) :
  Sim.run root_hybr (started vehicle motor tire battery dt runtime) n = Some st ->
  let ff := Vehicle.m vehicle * Vehicle.b vehicle / Vehicle.l vehicle in
  let fr := Vehicle.m vehicle * Vehicle.a vehicle / Vehicle.l vehicle in
  let wtfr := Vehicle.h vehicle / Vehicle.l vehicle
              * Vehicle.m vehicle * Sim.current_x_ddot st / 9.81 in
  Sim.current_Fz st
  = [ff / 2 - wtfr / 2; ff / 2 - wtfr / 2; fr / 2 + wtfr / 2; fr / 2 + wtfr / 2].
Proof.
  intros Hrun. destruct n as [| n].
  - injection Hrun as <-. simpl. repeat f_equal; lra.
  - rewrite run_S in Hrun. apply bind_Some in Hrun as (s & Hs & Ht).
    destruct (run_shape root_hybr _ s n (started_four_wheels _ _ _ _ _ _) Hs)
      as (H4 & HV & _ & _ & _ & _ & _ & Hi).
    pose proof (tick_loads s st _ _ _ _ H4 Ht Hi) as HFz.
    rewrite HV in HFz. exact HFz.
Qed.

End Loads.

Lemma sum_four (x0 x1 x2 x3 : R) : py_sum [x0; x1; x2; x3] = x0 + x1 + x2 + x3.
Proof. unfold py_sum. simpl. ring. Qed.

(** C10: in every state of a run the four loads are the static split
    [m*b/l/2] (front) and [m*a/l/2] (rear), without any factor [g], moved by
    half the weight transfer, and they add up to the mass [m] exactly. *)
Theorem loads_sum_to_mass (root_hybr : (R -> option R) -> R -> R * bool)
    (a b m h cd A : R) (motor : Motor.t) (tire : Tire.t) (battery : Battery.t)
    (dt runtime : R) (st0 st : Sim.t) (n : nat) :
  Sim.init (Vehicle.init a b m h cd A) motor tire battery dt runtime = Some st0 ->
  Sim.run root_hybr st0 n = Some st ->
  let l := a + b in
  let wtfr := h / l * m * Sim.current_x_ddot st / 9.81 in
  Sim.current_Fz st
  = [m * b / l / 2 - wtfr / 2; m * b / l / 2 - wtfr / 2;
     m * a / l / 2 + wtfr / 2; m * a / l / 2 + wtfr / 2] /\
  py_sum (Sim.current_Fz st) = m.
Proof.
  intros (Hl & ->)%init_started Hrun. simpl in Hl.
  pose proof (run_loads root_hybr _ _ _ _ _ _ st n Hrun) as HFz. simpl in HFz.
  simpl. split; [done |].
  rewrite HFz, sum_four. field. split; [done | lra].
Qed.

Lemma loads_sum_to_mass_witness :
  exists st, Sim.run stalled_solver sim_frc 1 = Some st /\
    let l := 0.126 + 0.126 in
    let wtfr := 0.032 / l * 5 * Sim.current_x_ddot st / 9.81 in
    Sim.current_Fz st
    = [5 * 0.126 / l / 2 - wtfr / 2; 5 * 0.126 / l / 2 - wtfr / 2;
       5 * 0.126 / l / 2 + wtfr / 2; 5 * 0.126 / l / 2 + wtfr / 2] /\
    py_sum (Sim.current_Fz st) = 5.
Proof.
  destruct sim_frc_run_1 as [st Hst]. exists st. split; [done |].
  apply (loads_sum_to_mass stalled_solver 0.126 0.126 5 0.032 0.75 0.0418
           motor_frc tire_frc battery_frc 0.01 20 sim_frc st 1).
  - apply init_frc.
  - exact Hst.
Defined.

(** C2, as the code has it: in every state of a run the four loads add up
    to the mass [m], whatever the tick; for a car that has a mass this is
    not its weight [m * 9.81], the total the loads, logged and used as
    newtons, should have. *)
Theorem loads_sum_is_mass_not_weight (root_hybr : (R -> option R) -> R -> R * bool)
    (a b m h cd A : R) (motor : Motor.t) (tire : Tire.t) (battery : Battery.t)
    (dt runtime : R) (st0 st : Sim.t) (n : nat) :
  Sim.init (Vehicle.init a b m h cd A) motor tire battery dt runtime = Some st0 ->
  Sim.run root_hybr st0 n = Some st ->
  m <> 0 ->
  py_sum (Sim.current_Fz st) = py_sum (Sim.inital_Fz st) /\
  py_sum (Sim.current_Fz st) = m /\
  py_sum (Sim.current_Fz st) <> m * 9.81.
Proof.
  intros (Hl & ->)%init_started Hrun Hm. simpl in Hl.
  pose proof (run_loads root_hybr _ _ _ _ _ _ st n Hrun) as HFz. simpl in HFz.
  destruct (run_shape root_hybr _ st n (started_four_wheels _ _ _ _ _ _) Hrun)
    as (_ & _ & _ & _ & _ & _ & _ & Hi).
  assert (Hsum : py_sum (Sim.current_Fz st) = m).
  { rewrite HFz, sum_four. field. split; [done | lra]. }
  split; [| split; [done |]].
  - rewrite Hsum, Hi. simpl. rewrite sum_four. field. done.
  - rewrite Hsum. lra.
Qed.

Lemma loads_sum_is_mass_not_weight_witness :
  exists st, Sim.run stalled_solver sim_frc 1 = Some st /\
    py_sum (Sim.current_Fz st) = py_sum (Sim.inital_Fz st) /\
    py_sum (Sim.current_Fz st) = 5 /\
    py_sum (Sim.current_Fz st) <> 5 * 9.81.
Proof.
  destruct sim_frc_run_1 as [st Hst]. exists st. split; [done |].
  apply (loads_sum_is_mass_not_weight stalled_solver 0.126 0.126 5 0.032 0.75 0.0418
           motor_frc tire_frc battery_frc 0.01 20 sim_frc st 1).
  - apply init_frc.
  - exact Hst.
  - lra.
Defined.

(** ** C8: the driver *)

Lemma py_int_2000 : py_int (20 / 0.01) = 2000%Z.
Proof.
  replace (20 / 0.01) with 2000 by lra.
  unfold py_int. destruct (Rle_dec 0 2000) as [_ | Hn]; [| lra].
  symmetry. apply Int_part_spec. lra.
Qed.

Section Driver.
Variable root_hybr : (R -> option R) -> R -> R * bool.

(** A tick appends one row, the snapshot of the state it commits. *)
Lemma tick_output (self self' : Sim.t) :
  Sim.tick root_hybr self = Some self' ->
  exists row, Sim.output_data self' = Some row /\
              Sim.output self' = Sim.output self ++ [row].
Proof.
  unfold Sim.tick.
  intros ([[[[[[[[x xd] xdd] time] amps] Fz] P] slip] w] & _ & H)%bind_Some.
  apply bind_Some in H as (row & Hrow & [= <-]).
  exists row. split; [exact Hrow | done].
Qed.

(** A run of [n] ticks has appended [n] rows, the snapshots of its states
    after 1, 2, ..., [n] ticks, in that order. *)
Lemma run_output (self self' : Sim.t) (n : nat) :
  Sim.run root_hybr self n = Some self' ->
  length (Sim.output self') = (length (Sim.output self) + n)%nat /\
  (forall j, (j < length (Sim.output self))%nat ->
     Sim.output self' !! j = Sim.output self !! j) /\
  (forall i, (i < n)%nat ->
     exists s row, Sim.run root_hybr self (S i) = Some s /\
       Sim.output_data s = Some row /\
       Sim.output self' !! (length (Sim.output self) + i)%nat = Some row).
Proof.
  revert self'. induction n as [| n IH]; intros self'.
  - intros [= <-]. split; [lia |]. split; [done |]. intros i Hi. lia.
  - intros Hrun. pose proof Hrun as Hrun'. rewrite run_S in Hrun'.
    apply bind_Some in Hrun' as (s & Hs & Ht).
    destruct (IH s Hs) as (Hlen & Hold & Hrows).
    destruct (tick_output s self' Ht) as (row & Hrow & Hout).
    rewrite Hout. split; [| split].
    + rewrite length_app. simpl. lia.
    + intros j Hj. rewrite lookup_app_l by lia. by apply Hold.
    + intros i Hi. destruct (decide (i = n)) as [-> | Hne].
      * exists self', row. split; [done |]. split; [done |].
        apply list_lookup_middle. lia.
      * destruct (Hrows i ltac:(lia)) as (si & ri & H1 & H2 & H3).
        exists si, ri. split; [done |]. split; [done |].
        rewrite lookup_app_l by lia. done.
Qed.

End Driver.

(** C8: with [dt = 0.01] and [runtime = 20] the tick count [int(runtime/dt)]
    is 2000, and a call of the simulation is a run of exactly 2000 ticks: it
    ends in the state after the 2000th tick, having appended exactly 2000
    rows, row [i] being the snapshot of the state after tick [i+1]. *)
Theorem call_executes_2000_ticks (root_hybr : (R -> option R) -> R -> R * bool)
    (self self' : Sim.t) :
  Sim.dt self = 0.01 -> Sim.runtime self = 20 ->
  Sim.call root_hybr self = Some self' ->
  Sim.ticks self = Some 2000%Z /\
  Sim.run root_hybr self 2000 = Some self' /\
  length (Sim.output self') = (length (Sim.output self) + 2000)%nat /\
  (forall i, (i < 2000)%nat ->
     exists s row, Sim.run root_hybr self (S i) = Some s /\
       Sim.output_data s = Some row /\
       Sim.output self' !! (length (Sim.output self) + i)%nat = Some row).
Proof.
  intros Hdt Hrt Hcall.
  assert (Hticks : Sim.ticks self = Some 2000%Z).
  { unfold Sim.ticks. rewrite Hdt, Hrt, fdiv_nonzero by lra. simpl.
    by rewrite py_int_2000. }
  unfold Sim.call in Hcall. rewrite Hticks in Hcall. simpl in Hcall.
  replace (Pos.to_nat 2000) with 2000%nat in Hcall by lia.
  split; [done |]. split; [done |].
  destruct (run_output root_hybr self self' 2000 Hcall) as (Hlen & _ & Hrows).
  done.
Qed.

Section Steady.
Variable root_hybr : (R -> option R) -> R -> R * bool.
Hypothesis solver_nonzero : forall f, Sim.fsolve root_hybr f 1 <> 0.

Lemma steady_tick (self : Sim.t) :
  steady self ->
  exists self', Sim.tick root_hybr self = Some self' /\ steady self'.
Proof.
  intros (H4 & Hload & HFz & Hh & Hr & HKt & Hk & Hm & Hl).
  pose proof H4 as (HlF & Hlw & Hli & Hla).
  destruct (tick_total root_hybr self HlF Hlw Hli Hload Hr HKt Hk Hm Hl solver_nonzero)
    as [self' Ht].
  exists self'. split; [done |].
  destruct (tick_shape root_hybr self self' H4 Ht)
    as (H4' & HV & HM & HT & HB & _ & _ & Hi).
  assert (HFz' : Sim.current_Fz self' = Sim.inital_Fz self').
  { destruct (Sim.inital_Fz self) as [| f0 [| f1 [| f2 [| f3 [| ? ?]]]]] eqn:Hinit;
      try discriminate.
    rewrite (tick_loads root_hybr self self' f0 f1 f2 f3 H4 Ht Hinit), Hi, Hh.
    repeat f_equal; unfold Rdiv; ring. }
  unfold steady. rewrite HV, HM, HT. repeat (split; [done |]). split; [| done].
  unfold loaded. rewrite HFz', Hi, <- HFz. exact Hload.
Qed.

Lemma steady_run (self : Sim.t) (n : nat) :
  steady self ->
  exists self', Sim.run root_hybr self n = Some self' /\ steady self'.
Proof.
  intros Hs. induction n as [| n (s & Hrun & Hss)].
  - exists self. split; [reflexivity | exact Hs].
  - destruct (steady_tick s Hss) as (s' & Ht & Hs').
    exists s'. split; [| done]. rewrite run_S, Hrun. done.
Qed.

End Steady.

Lemma sim_flat_steady : steady sim_flat.
Proof.
  unfold steady. split; [apply started_four_wheels |].
  split; [apply started_loaded; simpl; lra |].
  simpl. repeat split; lra.
Qed.

Lemma call_executes_2000_ticks_witness :
  exists self',
    Sim.call stalled_solver sim_flat = Some self' /\
    Sim.ticks sim_flat = Some 2000%Z /\
    Sim.run stalled_solver sim_flat 2000 = Some self' /\
    length (Sim.output self') = (length (Sim.output sim_flat) + 2000)%nat /\
    (forall i, (i < 2000)%nat ->
       exists s row, Sim.run stalled_solver sim_flat (S i) = Some s /\
         Sim.output_data s = Some row /\
         Sim.output self' !! (length (Sim.output sim_flat) + i)%nat = Some row).
Proof.
  destruct (steady_run stalled_solver stalled_solver_nonzero sim_flat 2000 sim_flat_steady)
    as (self' & Hrun & _).
  assert (Hcall : Sim.call stalled_solver sim_flat = Some self').
  { unfold Sim.call, Sim.ticks.
    change (Sim.runtime sim_flat) with 20. change (Sim.dt sim_flat) with 0.01.
    rewrite fdiv_nonzero by lra. cbn [mbind option_bind]. rewrite py_int_2000.
    replace (Z.to_nat 2000) with 2000%nat by lia. exact Hrun. }
  exists self'. split; [exact Hcall |].
  apply (call_executes_2000_ticks stalled_solver sim_flat self'); [done | done | exact Hcall].
Defined.

(** ** C3 and C6: the limited branch *)

Lemma mu_demo_closed (s : R) : Tire.mu tire_demo s = 2 * s / (1 + s²).
Proof.
  unfold Tire.mu, tire_demo. simpl.
  replace (1 * s - 0 * (1 * s - atan (1 * s))) with s by ring.
  rewrite sin_2a, sin_atan, cos_atan.
  assert (H0 : 0 < 1 + s²) by (unfold Rsqr; nra).
  pose proof (sqrt_lt_R0 _ H0) as Hs.
  pose proof (sqrt_sqrt (1 + s²) ltac:(lra)) as Hsq.
  rewrite <- Hsq at 3. field. lra.
Qed.

Lemma sim_small_loaded : loaded sim_small.
Proof. apply started_loaded; simpl; lra. Qed.

Lemma sim_small_sample_50 (i : nat) :
  (i < 4)%nat -> grid_sample sim_small i 50 = Some 1.
Proof.
  intros Hi. destruct (sim_small_loaded i Hi) as (fz & Hfz & Hne).
  rewrite <- grid_sample_is_sample, (sample_loaded _ _ _ _ Hfz Hne). f_equal.
  replace (INR 50) with 50 by (simpl; lra).
  change (Sim.Tire sim_small) with tire_demo. rewrite mu_demo_closed.
  assert (fz = 1.25) as ->.
  { destruct i as [| [| [| [| i]]]]; try lia; simpl in Hfz; injection Hfz as <-; lra. }
  unfold Rsqr. lra.
Qed.

(** The forward mapping of the reference motor. *)
Lemma amps_frc (t : R) : t / (1 / (2000 * 0.10472)) * (1 / 0.8) = t * 261.8.
Proof. field_simplify; [lra | split; lra]. Qed.

(** On the small battery every wheel demands more than the burst current. *)
Lemma sim_small_demand (i : nat) (p t w a s : R) :
  demanded sim_small i p t w a s -> a > Battery.Burst (Sim.Battery sim_small).
Proof.
  intros (k & w_prev & (Hk & Hg & Hle & _) & Hwp & _ & _ & _ & -> & -> & -> & ->).
  assert (Hi : (i < 4)%nat).
  { unfold grid_sample in Hg.
    apply bind_Some in Hg as (fz & Hfz & _). by apply lookup_lt_Some in Hfz. }
  destruct (Hle 50%nat ltac:(lia)) as (v & Hv & Hp).
  rewrite (sim_small_sample_50 i Hi) in Hv. injection Hv as <-.
  assert (w_prev = 0) as ->.
  { destruct i as [| [| [| [| i]]]]; try lia; simpl in Hwp; by injection Hwp as <-. }
  pose proof (grid_slip_below_one k Hk) as Hs1.
  assert (Hs : 0 < 1 - INR k / 100).
  { apply lt_INR in Hk. replace (INR 100) with 100 in Hk by (simpl; lra). lra. }
  simpl.
  assert (Hw : 0 < 0.0001 / (0.032 * (1 - INR k / 100))).
  { apply Rdiv_lt_0_compat; nra. }
  set (w := 0.0001 / (0.032 * (1 - INR k / 100))) in *. clearbody w.
  rewrite amps_frc. nra.
Qed.

Section Limited.
Variable root_hybr : (R -> option R) -> R -> R * bool.

(** On the small battery every wheel takes the limited branch. *)
Lemma sim_small_limited (st : Loc.t) (i : nat) :
  Sim.wheel_lists root_hybr sim_small = Some st -> (i < 4)%nat ->
  exists p s,
    let B := Battery.Burst battery_small in
    let t := B * Motor.Kt motor_frc * (1 / Motor.k motor_frc) in
    cells st i p t (Sim.fsolve root_hybr (fun w => Sim.w_fun sim_small w t i) 1) B s.
Proof.
  intros Hst Hi.
  destruct (wheel_lists_spec root_hybr sim_small st eq_refl Hst) as (_ & Hw).
  destruct (Hw i Hi) as (p0 & t0 & w0 & a0 & s0 & p & t & w & a & s & Hd & Hc & Hl).
  apply sim_small_demand in Hd.
  destruct Hl as [(_ & _ & -> & -> & -> & _) | (Hn & _)]; [| contradiction].
  by exists p, s.
Qed.

End Limited.

Lemma sim_small_wheel_lists : is_Some (Sim.wheel_lists stalled_solver sim_small).
Proof.
  apply wheel_lists_total; try done; try (simpl; lra).
  - apply sim_small_loaded.
  - apply stalled_solver_nonzero.
Qed.

(** C3, evaluated on the small battery: every wheel is limited, its current
    is exactly [Burst], and its torque is recomputed as [Burst * Kt * (1/k)],
    which is not [Burst * Kt * k] and which the forward mapping
    [T / Kt * (1/k)] does not send back to [Burst]. *)
Theorem clamp_torque_divides_by_efficiency
    (root_hybr : (R -> option R) -> R -> R * bool) (st : Loc.t) (i : nat) :
  Sim.wheel_lists root_hybr sim_small = Some st -> (i < 4)%nat ->
  let B := Battery.Burst battery_small in
  let Kt := Motor.Kt motor_frc in
  let k := Motor.k motor_frc in
  Loc.amps st !! i = Some B /\
  Loc.T st !! i = Some (B * Kt * (1 / k)) /\
  B * Kt * (1 / k) <> B * Kt * k /\
  B * Kt * (1 / k) / Kt * (1 / k) <> B.
Proof.
  intros Hst Hi.
  destruct (sim_small_limited root_hybr st i Hst Hi) as (p & s & _ & Ht & _ & Ha & _).
  simpl in *. split; [done |]. split; [done |].
  assert (HKt : 0 < 1 / (2000 * 0.10472)) by (apply Rdiv_lt_0_compat; lra).
  set (Kt := 1 / (2000 * 0.10472)) in *.
  split.
  - intros H. nra.
  - replace (1 * 1 * 1.95 * Kt * (1 / 0.8) / Kt * (1 / 0.8)) with (1.95 / 0.64);
      [lra |].
    field_simplify; [lra | lra | lra].
Qed.

Lemma clamp_torque_divides_by_efficiency_witness :
  exists st, Sim.wheel_lists stalled_solver sim_small = Some st /\
    let B := Battery.Burst battery_small in
    let Kt := Motor.Kt motor_frc in
    let k := Motor.k motor_frc in
    Loc.amps st !! 0%nat = Some B /\
    Loc.T st !! 0%nat = Some (B * Kt * (1 / k)) /\
    B * Kt * (1 / k) <> B * Kt * k /\
    B * Kt * (1 / k) / Kt * (1 / k) <> B.
Proof.
  destruct sim_small_wheel_lists as [st Hst]. exists st. split; [exact Hst |].
  apply (clamp_torque_divides_by_efficiency stalled_solver st 0); [exact Hst | lia].
Defined.

Section Convergence.
Variables solver1 solver2 : (R -> option R) -> R -> R * bool.
Hypothesis same_iterate : forall f x0, fst (solver1 f x0) = fst (solver2 f x0).

Lemma limit_body_same (self : Sim.t) (st : Loc.t) (n : nat) :
  Sim.limit_body solver1 self st n = Sim.limit_body solver2 self st n.
Proof.
  unfold Sim.limit_body, Sim.fsolve.
  destruct (Loc.amps st !! n) as [an |]; simpl; [| done].
  destruct (Rgt_dec an _); [| done].
  destruct (store (Loc.amps st) n _) as [amps |]; simpl; [| done].
  destruct (amps !! n) as [an' |]; simpl; [| done].
  destruct (fdiv 1 _) as [ik |]; simpl; [| done].
  destruct (store (Loc.T st) n _) as [T |]; simpl; [| done].
  destruct (T !! n) as [tn |]; simpl; [| done].
  by rewrite same_iterate.
Qed.

Lemma wheel_lists_same (self : Sim.t) :
  Sim.wheel_lists solver1 self = Sim.wheel_lists solver2 self.
Proof.
  unfold Sim.wheel_lists.
  destruct (Sim.peak_search self _ _) as [[P slip] |]; simpl; [| done].
  destruct (for_range (Sim.speed_body self slip) _ _) as [w |]; simpl; [| done].
  destruct (for_range (Sim.torque_body self w P) _ _) as [T |]; simpl; [| done].
  destruct (for_range (Sim.amps_body self T) _ _) as [amps |]; simpl; [| done].
  apply for_range_ext. intros s1 n _. apply limit_body_same.
Qed.

Lemma tick_same (self : Sim.t) : Sim.tick solver1 self = Sim.tick solver2 self.
Proof.
  unfold Sim.tick, Sim.accel_FrictionLimited. by rewrite wheel_lists_same.
Qed.

End Convergence.

(** C6, amended: the simulation never looks at whether the root finder met
    its tolerance.  Two root finders that hand back the same iterates, one
    reporting success and the other failure, give the same tick, the same
    run and the same call: the iterate is used as the wheel speed either
    way and nothing is raised. *)
Theorem convergence_status_is_ignored
    (solver1 solver2 : (R -> option R) -> R -> R * bool) (self : Sim.t) (n : nat) :
  (forall f x0, fst (solver1 f x0) = fst (solver2 f x0)) ->
  Sim.tick solver1 self = Sim.tick solver2 self /\
  Sim.run solver1 self n = Sim.run solver2 self n /\
  Sim.call solver1 self = Sim.call solver2 self.
Proof.
  intros Hsame.
  assert (Hrun : forall k, Sim.run solver1 self k = Sim.run solver2 self k).
  { intros k. unfold Sim.run. apply for_range_ext. intros s1 j _.
    by apply tick_same. }
  split; [by apply tick_same |]. split; [apply Hrun |].
  unfold Sim.call. destruct (Sim.ticks self); simpl; [apply Hrun | done].
Qed.

Lemma convergence_status_is_ignored_witness :
  Sim.tick stalled_solver sim_small = Sim.tick lucky_solver sim_small /\
  Sim.run stalled_solver sim_small 1 = Sim.run lucky_solver sim_small 1 /\
  Sim.call stalled_solver sim_small = Sim.call lucky_solver sim_small.
Proof.
  apply (convergence_status_is_ignored stalled_solver lucky_solver sim_small 1).
  intros f x0. reflexivity.
Defined.

Lemma sim_small_tick : is_Some (Sim.tick stalled_solver sim_small).
Proof.
  apply tick_total; try done; try (simpl; lra).
  - apply sim_small_loaded.
  - apply stalled_solver_nonzero.
Qed.

(** C6 as stated fails: on the small battery, with a root finder that never
    meets its tolerance, the first tick limits all four wheels, calls the
    root finder for each, and still commits a state, whose wheel speeds are
    the unconverged iterates (the starting point 1). *)
Lemma convergence_failure_is_not_surfaced :
  exists self',
    Sim.tick stalled_solver sim_small = Some self' /\
    (forall f x0, snd (stalled_solver f x0) = false) /\
    Sim.current_amps self' = [1.95; 1.95; 1.95; 1.95] /\
    Sim.current_w self' = [1; 1; 1; 1].
Proof.
  destruct sim_small_tick as [self' Ht]. exists self'.
  split; [done |]. split; [done |].
  destruct (tick_spec stalled_solver sim_small self' eq_refl Ht)
    as (st & xdd & row & Hst & _ & _ & _ & _ & _ & _ & _ & Ea & _ & _ & Ew & _).
  destruct (wheel_lists_spec stalled_solver sim_small st eq_refl Hst)
    as ((_ & _ & Hlw & Hla & _) & _).
  rewrite Ea, Ew.
  destruct (sim_small_limited stalled_solver st 0 Hst ltac:(lia)) as (? & ? & _ & _ & Hw0 & Ha0 & _).
  destruct (sim_small_limited stalled_solver st 1 Hst ltac:(lia)) as (? & ? & _ & _ & Hw1 & Ha1 & _).
  destruct (sim_small_limited stalled_solver st 2 Hst ltac:(lia)) as (? & ? & _ & _ & Hw2 & Ha2 & _).
  destruct (sim_small_limited stalled_solver st 3 Hst ltac:(lia)) as (? & ? & _ & _ & Hw3 & Ha3 & _).
  split.
  - rewrite (list_four _ _ _ _ _ Hla Ha0 Ha1 Ha2 Ha3). simpl. repeat f_equal; lra.
  - by rewrite (list_four _ _ _ _ _ Hlw Hw0 Hw1 Hw2 Hw3).
Qed.

(** * Further properties of the code *)

(** ** The constructors *)

(** X1: [Motor.__init__] fails exactly for [Kv = 0]; a motor it builds has a
    torque constant that is not zero and is the inverse of [Kv * 0.10472],
    so the current loop's division [T / Kt] cannot fail on a built motor. *)
Theorem motor_init_torque_constant (Kv k : R) :
  (Motor.init Kv k = None <-> Kv = 0) /\
  (forall mo, Motor.init Kv k = Some mo ->
     Motor.Kv mo = Kv /\ Motor.k mo = k /\
     Motor.Kt mo <> 0 /\ Motor.Kt mo * (Kv * 0.10472) = 1).
Proof.
  unfold Motor.init. split.
  - split.
    + intros H. destruct (Req_dec_T Kv 0) as [-> | Hne]; [done |].
      rewrite fdiv_nonzero in H by (apply Rmult_integral_contrapositive_currified; lra).
      discriminate.
    + intros ->. replace (0 * 0.10472) with 0 by ring. by rewrite fdiv_zero.
  - intros mo (kt & (Hne & ->)%fdiv_Some & [= <-])%bind_Some. simpl.
    split; [done |]. split; [done |]. split.
    + unfold Rdiv. rewrite Rmult_1_l. by apply Rinv_neq_0_compat.
    + field. split; [lra |]. intros ->. apply Hne. ring.
Qed.

(** X2: [Sim.__init__] fails exactly when the wheelbase [a + b] is zero. *)
Theorem sim_init_fails_iff_no_wheelbase (a b m h cd A : R) (motor : Motor.t)
    (tire : Tire.t) (battery : Battery.t) (dt runtime : R) :
  Sim.init (Vehicle.init a b m h cd A) motor tire battery dt runtime = None <->
  a + b = 0.
Proof.
  split.
  - intros H. destruct (Req_dec_T (a + b) 0) as [H0 | Hne]; [done |].
    assert (Hs : Sim.init (Vehicle.init a b m h cd A) motor tire battery dt runtime
                 = Some (started (Vehicle.init a b m h cd A) motor tire battery dt runtime))
      by (apply init_started; split; [exact Hne | reflexivity]).
    rewrite Hs in H. discriminate.
  - intros H0. unfold Sim.init. simpl. rewrite H0, !fdiv_zero. reflexivity.
Qed.

(** X3: The static loads [Sim.__init__] sets balance the moments about the
    centre of gravity: front axle load times [a] is rear axle load times
    [b]; and the two wheels of an axle carry the same load. *)
Theorem static_loads_balance (a b m h cd A : R) (motor : Motor.t)
    (tire : Tire.t) (battery : Battery.t) (dt runtime : R) (st0 : Sim.t) :
  Sim.init (Vehicle.init a b m h cd A) motor tire battery dt runtime = Some st0 ->
  exists ff fr,
    Sim.inital_Fz st0 = [ff; ff; fr; fr] /\
    Sim.current_Fz st0 = [ff; ff; fr; fr] /\
    (ff + ff) * a = (fr + fr) * b.
Proof.
  intros (Hl & ->)%init_started. simpl in Hl.
  exists (m * b / (a + b) / 2), (m * a / (a + b) / 2). simpl.
  split; [done |]. split; [done |]. field. done.
Qed.

Lemma static_loads_balance_witness :
  exists ff fr,
    Sim.inital_Fz sim_frc = [ff; ff; fr; fr] /\
    Sim.current_Fz sim_frc = [ff; ff; fr; fr] /\
    (ff + ff) * 0.126 = (fr + fr) * 0.126.
Proof.
  apply (static_loads_balance 0.126 0.126 5 0.032 0.75 0.0418
           motor_frc tire_frc battery_frc 0.01 20 sim_frc).
  apply init_frc.
Defined.

(** ** The tire curve *)

Lemma mu_origin (t : Tire.t) : Tire.mu t 0 = 0.
Proof.
  unfold Tire.mu. rewrite Rmult_0_r, atan_0.
  replace (0 - Tire.a t * (0 - 0)) with 0 by ring.
  rewrite atan_0, Rmult_0_r, sin_0. ring.
Qed.

(** X4: The curve passes through the origin: under any load that is not zero,
    [lonFriction] at slip 0 is 0. *)
Theorem lonFriction_origin (t : Tire.t) (F : R) :
  F <> 0 -> Tire.lonFriction t 0 F = Some 0.
Proof. intros HF. by rewrite lonFriction_nonzero, mu_origin. Qed.

Lemma lonFriction_origin_witness : Tire.lonFriction tire_frc 0 1.25 = Some 0.
Proof. apply (lonFriction_origin tire_frc 1.25). lra. Defined.

Lemma lonFriction_Some (t : Tire.t) (s F u : R) :
  Tire.lonFriction t s F = Some u -> F <> 0 /\ u = Tire.mu t s.
Proof.
  intros H. destruct (Req_dec_T F 0) as [-> | HF].
  - by rewrite lonFriction_zero_load in H.
  - rewrite lonFriction_nonzero in H by done. by injection H as <-.
Qed.

(** X5: Whatever the slip and the load, the coefficient [lonFriction] returns
    is at most [|d|] in magnitude. *)
Theorem lonFriction_bounded (t : Tire.t) (s F u : R) :
  Tire.lonFriction t s F = Some u -> Rabs u <= Rabs (Tire.d t).
Proof.
  intros (_ & ->)%lonFriction_Some. unfold Tire.mu. rewrite Rabs_mult.
  rewrite <- (Rmult_1_r (Rabs (Tire.d t))) at 2.
  apply Rmult_le_compat_l; [apply Rabs_pos |].
  apply Rabs_le. apply SIN_bound.
Qed.

Lemma lonFriction_bounded_witness :
  Rabs (Tire.mu tire_frc 0.5) <= Rabs (Tire.d tire_frc).
Proof.
  apply (lonFriction_bounded tire_frc 0.5 1.25 (Tire.mu tire_frc 0.5)).
  apply lonFriction_nonzero. lra.
Defined.

(** ** More on the peak-force search *)

Lemma grid_sample_Some (self : Sim.t) (i n : nat) (v : R) :
  grid_sample self i n = Some v ->
  exists fz, Sim.current_Fz self !! i = Some fz /\ fz <> 0 /\
             v = Tire.mu (Sim.Tire self) (INR n / 100) * fz.
Proof.
  unfold grid_sample.
  intros (fz & Hfz & (u & (Hne & ->)%lonFriction_Some & [= <-])%bind_Some)%bind_Some.
  by exists fz.
Qed.

Lemma is_peak_nonnegative (self : Sim.t) (i k : nat) (pk : R) :
  is_peak self i k pk -> 0 <= pk.
Proof.
  intros (_ & _ & Hle & _). destruct (Hle 0%nat ltac:(lia)) as (v & Hv & Hvp).
  apply grid_sample_Some in Hv as (fz & _ & _ & ->).
  replace (INR 0 / 100) with 0 in Hvp by (simpl; lra).
  rewrite mu_origin in Hvp. lra.
Qed.

(** X6: The search never returns a negative force: slip 0, where the force is
    0, is on the grid. *)
Theorem peak_force_nonnegative (self : Sim.t) (P slip P' slip' : list R)
    (i : nat) (pk : R) :
  Sim.peak_search self P slip = Some (P', slip') ->
  (i < 4)%nat -> P' !! i = Some pk -> 0 <= pk.
Proof.
  intros (_ & _ & _ & _ & Hpk & _)%peak_search_spec Hi HP.
  destruct (Hpk i Hi) as (k & pk' & HP' & _ & Hpeak).
  rewrite HP in HP'. injection HP' as <-. by eapply is_peak_nonnegative.
Qed.

Lemma peak_force_nonnegative_witness :
  exists P' slip' pk,
    Sim.peak_search sim_frc (range_list 4) (range_list 4) = Some (P', slip') /\
    P' !! 0%nat = Some pk /\ 0 <= pk.
Proof.
  destruct (peak_search_total sim_frc (range_list 4) (range_list 4) sim_frc_loaded)
    as (P' & slip' & H); [rewrite length_range_list; lia.. |].
  pose proof H as (_ & _ & _ & _ & Hpk & _)%peak_search_spec.
  destruct (Hpk 0%nat ltac:(lia)) as (k & pk & HP & _).
  exists P', slip', pk. split; [exact H |]. split; [exact HP |].
  apply (peak_force_nonnegative sim_frc (range_list 4) (range_list 4) P' slip' 0 pk);
    [exact H | lia | exact HP].
Defined.

(** Under a positive load the peak is the peak of the curve itself. *)
Lemma is_peak_positive_load (self : Sim.t) (i k : nat) (pk fz : R) :
  is_peak self i k pk -> Sim.current_Fz self !! i = Some fz -> 0 < fz ->
  pk = Tire.mu (Sim.Tire self) (INR k / 100) * fz /\
  (forall n, (n < 100)%nat ->
     Tire.mu (Sim.Tire self) (INR n / 100) <= Tire.mu (Sim.Tire self) (INR k / 100)) /\
  (forall n, (n < k)%nat ->
     Tire.mu (Sim.Tire self) (INR n / 100) < Tire.mu (Sim.Tire self) (INR k / 100)).
Proof.
  intros (Hk & Hg & Hle & Hlt) Hfz Hpos.
  assert (Hs : forall n, grid_sample self i n
                         = Some (Tire.mu (Sim.Tire self) (INR n / 100) * fz)).
  { intros n. rewrite <- grid_sample_is_sample. apply sample_loaded; [done | lra]. }
  rewrite Hs in Hg. injection Hg as <-. split; [done |]. split.
  - intros n Hn. destruct (Hle n Hn) as (v & Hv & Hvp).
    rewrite Hs in Hv. injection Hv as <-. nra.
  - intros n Hn. destruct (Hlt n Hn) as (v & Hv & Hvp).
    rewrite Hs in Hv. injection Hv as <-. nra.
Qed.

(** X7: Wheels under positive loads all get the same slip from the search, and
    forces in proportion to their loads. *)
Theorem peak_slip_shared (self : Sim.t) (P slip P' slip' : list R)
    (i j : nat) (fi fj pi pj : R) :
  Sim.peak_search self P slip = Some (P', slip') ->
  (i < 4)%nat -> (j < 4)%nat ->
  Sim.current_Fz self !! i = Some fi -> Sim.current_Fz self !! j = Some fj ->
  0 < fi -> 0 < fj ->
  P' !! i = Some pi -> P' !! j = Some pj ->
  slip' !! i = slip' !! j /\ pi * fj = pj * fi.
Proof.
  intros (_ & _ & _ & _ & Hpk & _)%peak_search_spec Hi Hj Hfi Hfj Hpi Hpj HPi HPj.
  destruct (Hpk i Hi) as (ki & pi' & HPi' & -> & Hpeaki).
  destruct (Hpk j Hj) as (kj & pj' & HPj' & -> & Hpeakj).
  rewrite HPi in HPi'. injection HPi' as <-.
  rewrite HPj in HPj'. injection HPj' as <-.
  pose proof Hpeaki as (Hki & _). pose proof Hpeakj as (Hkj & _).
  destruct (is_peak_positive_load self i ki pi fi Hpeaki Hfi Hpi) as (-> & Hlei & Hlti).
  destruct (is_peak_positive_load self j kj pj fj Hpeakj Hfj Hpj) as (-> & Hlej & Hltj).
  assert (ki = kj) as ->.
  { destruct (lt_eq_lt_dec ki kj) as [[Hlt | Heq] | Hgt]; [| done |].
    - pose proof (Hltj ki Hlt). pose proof (Hlei kj Hkj). lra.
    - pose proof (Hlti kj Hgt). pose proof (Hlej ki Hki). lra. }
  split; [done | ring].
Qed.

Lemma peak_slip_shared_witness :
  exists P' slip' p0 p2,
    Sim.peak_search sim_frc (range_list 4) (range_list 4) = Some (P', slip') /\
    P' !! 0%nat = Some p0 /\ P' !! 2%nat = Some p2 /\
    slip' !! 0%nat = slip' !! 2%nat /\
    p0 * (5 * 0.126 / (0.126 + 0.126) / 2) = p2 * (5 * 0.126 / (0.126 + 0.126) / 2).
Proof.
  destruct (peak_search_total sim_frc (range_list 4) (range_list 4) sim_frc_loaded)
    as (P' & slip' & H); [rewrite length_range_list; lia.. |].
  pose proof H as (_ & _ & _ & _ & Hpk & _)%peak_search_spec.
  destruct (Hpk 0%nat ltac:(lia)) as (k0 & p0 & HP0 & _).
  destruct (Hpk 2%nat ltac:(lia)) as (k2 & p2 & HP2 & _).
  exists P', slip', p0, p2. split; [exact H |]. split; [exact HP0 |].
  split; [exact HP2 |].
  apply (peak_slip_shared sim_frc (range_list 4) (range_list 4) P' slip' 0 2
           (5 * 0.126 / (0.126 + 0.126) / 2) (5 * 0.126 / (0.126 + 0.126) / 2) p0 p2);
    [exact H | lia | lia | reflexivity | reflexivity | lra | lra | exact HP0 | exact HP2].
Defined.

(** ** What a tick commits for each wheel *)

Section Committed.
Variable root_hybr : (R -> option R) -> R -> R * bool.

Lemma tick_wheels (self self' : Sim.t) (i : nat) :
  four_wheels self -> Sim.tick root_hybr self = Some self' -> (i < 4)%nat ->
  exists p0 t0 w0 a0 s0 p t w a s,
    demanded self i p0 t0 w0 a0 s0 /\
    limited root_hybr self i p0 t0 w0 a0 s0 p t w a s /\
    Sim.current_P self' !! i = Some p /\ Sim.current_w self' !! i = Some w /\
    Sim.current_amps self' !! i = Some a /\ Sim.current_slip self' !! i = Some s.
Proof.
  intros (HF & _) Ht Hi.
  destruct (tick_spec root_hybr self self' HF Ht)
    as (st & xdd & row & Hst & _ & _ & _ & _ & _ & _ & _ & Ea & EP & Es & Ew & _).
  destruct (wheel_lists_spec root_hybr self st HF Hst) as (_ & Hw).
  destruct (Hw i Hi) as (p0 & t0 & w0 & a0 & s0 & p & t & w & a & s & Hd & Hc & Hl).
  destruct Hc as (HP & _ & Hww & Ha & Hs).
  exists p0, t0, w0, a0, s0, p, t, w, a, s. rewrite Ea, EP, Es, Ew. done.
Qed.

(** X8: Limited or not, the wheel speed and the slip a tick commits for a wheel
    fit the speed the tick started from: [r * w * (1 - slip) = x_dot]. *)
Theorem tick_slip_consistent (self self' : Sim.t) (i : nat) :
  four_wheels self -> Sim.tick root_hybr self = Some self' -> (i < 4)%nat ->
  exists w s,
    Sim.current_w self' !! i = Some w /\ Sim.current_slip self' !! i = Some s /\
    Tire.r (Sim.Tire self) * w * (1 - s) = Sim.current_x_dot self.
Proof.
  intros H4 Ht Hi.
  destruct (tick_wheels self self' i H4 Ht Hi)
    as (p0 & t0 & w0 & a0 & s0 & p & t & w & a & s & Hd & Hl & _ & Hw & _ & Hs).
  exists w, s. split; [done |]. split; [done |].
  destruct Hd as (k & w_prev & (Hk & _) & _ & Hr & _ & _ & -> & -> & _).
  pose proof (grid_slip_below_one k Hk) as Hs1.
  destruct Hl as [(_ & _ & _ & _ & _ & Hrw & -> & _) | (_ & _ & _ & -> & _ & ->)].
  - field. split; [intros H0; apply Hrw; rewrite H0; ring | done].
  - field. split; [intros H0; apply Hs1; lra | done].
Qed.

(** X9: Limited or not, the force a tick commits for a wheel is the tire force
    at the slip it commits, under the load [fz] the tick started from:
    [lonFriction(slip, fz) * fz], that is [mu(slip) * fz]. *)
Theorem tick_force_consistent (self self' : Sim.t) (i : nat) :
  four_wheels self -> Sim.tick root_hybr self = Some self' -> (i < 4)%nat ->
  exists p s fz,
    Sim.current_P self' !! i = Some p /\ Sim.current_slip self' !! i = Some s /\
    Sim.current_Fz self !! i = Some fz /\
    Tire.lonFriction (Sim.Tire self) s fz = Some (Tire.mu (Sim.Tire self) s) /\
    p = Tire.mu (Sim.Tire self) s * fz.
Proof.
  intros H4 Ht Hi.
  destruct (tick_wheels self self' i H4 Ht Hi)
    as (p0 & t0 & w0 & a0 & s0 & p & t & w & a & s & Hd & Hl & HP & _ & _ & Hs).
  assert (Hsam : Sim.sample self s i = Some p).
  { destruct Hd as (k & w_prev & (_ & Hg & _) & _ & _ & _ & _ & -> & _).
    destruct Hl as [(_ & _ & _ & _ & _ & _ & _ & Hsam) | (_ & -> & _ & _ & _ & ->)];
      [done | by rewrite grid_sample_is_sample]. }
  apply sample_Some in Hsam as (fz & u & Hfz & Hu & ->).
  pose proof Hu as (_ & ->)%lonFriction_Some.
  by exists (Tire.mu (Sim.Tire self) s * fz), s, fz.
Qed.

(** X10: The current a tick commits for a wheel is the smaller of the demanded
    current and the burst current. *)
Theorem tick_current_is_min (self self' : Sim.t) (i : nat) :
  four_wheels self -> Sim.tick root_hybr self = Some self' -> (i < 4)%nat ->
  exists p0 t0 w0 a0 s0,
    demanded self i p0 t0 w0 a0 s0 /\
    Sim.current_amps self' !! i = Some (Rmin a0 (Battery.Burst (Sim.Battery self))).
Proof.
  intros H4 Ht Hi.
  destruct (tick_wheels self self' i H4 Ht Hi)
    as (p0 & t0 & w0 & a0 & s0 & p & t & w & a & s & Hd & Hl & _ & _ & Ha & _).
  exists p0, t0, w0, a0, s0. split; [done |]. rewrite Ha. f_equal.
  destruct Hl as [(Hgt & _ & -> & _) | (Hle & _ & _ & _ & -> & _)].
  - rewrite Rmin_right; [done | lra].
  - rewrite Rmin_left; [done | by apply Rnot_gt_le].
Qed.

End Committed.

Lemma tick_slip_consistent_witness :
  exists self' w s,
    Sim.tick stalled_solver sim_frc = Some self' /\
    Sim.current_w self' !! 0%nat = Some w /\ Sim.current_slip self' !! 0%nat = Some s /\
    Tire.r tire_frc * w * (1 - s) = Sim.current_x_dot sim_frc.
Proof.
  destruct sim_frc_tick as [self' Ht].
  destruct (tick_slip_consistent stalled_solver sim_frc self' 0
              (started_four_wheels _ _ _ _ _ _) Ht ltac:(lia)) as (w & s & H).
  exists self', w, s. split; [exact Ht | exact H].
Defined.

Lemma tick_force_consistent_witness :
  exists self' p s fz,
    Sim.tick stalled_solver sim_small = Some self' /\
    Sim.current_P self' !! 0%nat = Some p /\ Sim.current_slip self' !! 0%nat = Some s /\
    Sim.current_Fz sim_small !! 0%nat = Some fz /\
    Tire.lonFriction tire_demo s fz = Some (Tire.mu tire_demo s) /\
    p = Tire.mu tire_demo s * fz.
Proof.
  destruct sim_small_tick as [self' Ht].
  destruct (tick_force_consistent stalled_solver sim_small self' 0
              (started_four_wheels _ _ _ _ _ _) Ht ltac:(lia)) as (p & s & fz & H).
  exists self', p, s, fz. split; [exact Ht | exact H].
Defined.

Lemma tick_current_is_min_witness :
  exists self' p0 t0 w0 a0 s0,
    Sim.tick stalled_solver sim_small = Some self' /\
    demanded sim_small 0 p0 t0 w0 a0 s0 /\
    Sim.current_amps self' !! 0%nat = Some (Rmin a0 (Battery.Burst battery_small)).
Proof.
  destruct sim_small_tick as [self' Ht].
  destruct (tick_current_is_min stalled_solver sim_small self' 0
              (started_four_wheels _ _ _ _ _ _) Ht ltac:(lia))
    as (p0 & t0 & w0 & a0 & s0 & H).
  exists self', p0, t0, w0, a0, s0. split; [exact Ht | exact H].
Defined.

(** From a slip to the wheel speed of line 176 and back by line 194. *)
Lemma slip_round_trip (x r s : R) :
  x <> 0 -> r <> 0 -> 1 - s <> 0 ->
  r * (x / (r * (1 - s))) <> 0 /\ 1 - x / (r * (x / (r * (1 - s)))) = s.
Proof.
  intros Hx Hr Hs. split.
  - apply Rmult_integral_contrapositive_currified; [done |].
    unfold Rdiv. apply Rmult_integral_contrapositive_currified; [done |].
    apply Rinv_neq_0_compat. by apply Rmult_integral_contrapositive_currified.
  - field. repeat split; done.
Qed.

(** X11: The demanded wheel speed is a root of the residual [w_fun] for the
    demanded torque, whenever the car moves: the root finder's equation
    agrees with the direct computation of the unlimited branch. *)
Theorem demanded_speed_is_root (self : Sim.t) (i : nat) (p t w a s : R) :
  demanded self i p t w a s -> Sim.current_x_dot self <> 0 ->
  Sim.w_fun self w t i = Some 0.
Proof.
  intros (k & w_prev & (Hk & Hg & _) & Hwp & Hr & _ & _ & -> & -> & -> & _) Hx.
  pose proof (grid_slip_below_one k Hk) as Hs1.
  unfold grid_sample in Hg.
  apply bind_Some in Hg as (fz & Hfz & (u & Hu & [= <-])%bind_Some).
  destruct (slip_round_trip (Sim.current_x_dot self) (Tire.r (Sim.Tire self))
              (INR k / 100) Hx Hr Hs1) as (Hrw & Hback).
  unfold Sim.w_fun. rewrite Hwp. cbn [mbind option_bind].
  rewrite fdiv_nonzero by exact Hrw.
  cbn [mbind option_bind]. rewrite Hfz. cbn [mbind option_bind].
  rewrite Hback, Hu. cbn [mbind option_bind]. f_equal. ring.
Qed.

Lemma sim_frc_demanded :
  exists p t w a s, demanded sim_frc 0 p t w a s.
Proof.
  destruct sim_frc_tick as [self' Ht].
  destruct (tick_wheels stalled_solver sim_frc self' 0
              (started_four_wheels _ _ _ _ _ _) Ht ltac:(lia))
    as (p0 & t0 & w0 & a0 & s0 & _ & _ & _ & _ & _ & Hd & _).
  by exists p0, t0, w0, a0, s0.
Qed.

Lemma demanded_speed_is_root_witness :
  exists p t w a s,
    demanded sim_frc 0 p t w a s /\ Sim.w_fun sim_frc w t 0 = Some 0.
Proof.
  destruct sim_frc_demanded as (p & t & w & a & s & Hd).
  exists p, t, w, a, s. split; [exact Hd |].
  apply (demanded_speed_is_root sim_frc 0 p t w a s Hd). simpl. lra.
Defined.

(** ** Motion, time and the log *)

Section Motion.
Variable root_hybr : (R -> option R) -> R -> R * bool.

Lemma tick_frame (self self' : Sim.t) :
  Sim.tick root_hybr self = Some self' ->
  Vehicle.m (Sim.Vehicle self) <> 0 /\
  Sim.current_x_ddot self' * Vehicle.m (Sim.Vehicle self)
  = py_sum (Sim.current_P self') - F_aero self /\
  Sim.current_x_dot self' = Sim.current_x_dot self + Sim.current_x_ddot self' * Sim.dt self /\
  Sim.current_x self' = Sim.current_x self + Sim.current_x_dot self' * Sim.dt self /\
  Sim.current_time self' = Sim.current_time self + Sim.dt self /\
  Sim.dt self' = Sim.dt self.
Proof.
  unfold Sim.tick.
  intros ([[[[[[[[x xd] xdd] time] amps] Fz] P] slip] w] & Hacc & H)%bind_Some.
  apply bind_Some in H as (row & _ & [= <-]).
  unfold Sim.accel_FrictionLimited in Hacc.
  apply bind_Some in Hacc as (st & _ & Hacc).
  apply bind_Some in Hacc as (xdd' & (Hm & ->)%fdiv_Some & Hacc).
  apply bind_Some in Hacc as (hl & _ & Hacc).
  apply bind_Some in Hacc as (Fz' & _ & Hacc).
  injection Hacc as <- <- <- <- <- <- <- <- <-. simpl.
  split; [done |]. split; [| done]. unfold F_aero. field. done.
Qed.

(** X12: A tick applies Newton's law with the forces it commits and the drag at
    the speed it started from, then integrates: the speed with the new
    acceleration, the position with the new speed, the time by [dt]. *)
Theorem tick_motion (self self' : Sim.t) :
  Sim.tick root_hybr self = Some self' ->
  Vehicle.m (Sim.Vehicle self) <> 0 /\
  Sim.current_x_ddot self' * Vehicle.m (Sim.Vehicle self)
  = py_sum (Sim.current_P self') - F_aero self /\
  Sim.current_x_dot self' = Sim.current_x_dot self + Sim.current_x_ddot self' * Sim.dt self /\
  Sim.current_x self' = Sim.current_x self + Sim.current_x_dot self' * Sim.dt self /\
  Sim.current_time self' = Sim.current_time self + Sim.dt self /\
  Sim.dt self' = Sim.dt self.
Proof. apply tick_frame. Qed.

Lemma run_clock (self st : Sim.t) (n : nat) :
  Sim.run root_hybr self n = Some st ->
  Sim.current_time st = Sim.current_time self + INR n * Sim.dt self /\
  Sim.dt st = Sim.dt self.
Proof.
  revert st. induction n as [| n IH]; intros st.
  - intros [= <-]. simpl. split; [lra | done].
  - rewrite run_S. intros (s & Hs & Ht)%bind_Some.
    destruct (IH s Hs) as (Htime & Hdt).
    destruct (tick_frame s st Ht) as (_ & _ & _ & _ & Ht' & Hdt').
    rewrite Ht', Hdt', Htime, Hdt, S_INR. split; [ring | done].
Qed.

(** X13: After [n] ticks the clock shows [n * dt] more than at the start. *)
Theorem run_time (self st : Sim.t) (n : nat) :
  Sim.run root_hybr self n = Some st ->
  Sim.current_time st = Sim.current_time self + INR n * Sim.dt self /\
  Sim.dt st = Sim.dt self.
Proof. apply run_clock. Qed.

End Motion.

Lemma tick_motion_witness :
  exists self',
    Sim.tick stalled_solver sim_frc = Some self' /\
    Vehicle.m vehicle_frc <> 0 /\
    Sim.current_x_ddot self' * Vehicle.m vehicle_frc
    = py_sum (Sim.current_P self') - F_aero sim_frc /\
    Sim.current_x_dot self' = 0.0001 + Sim.current_x_ddot self' * 0.01 /\
    Sim.current_x self' = 0 + Sim.current_x_dot self' * 0.01 /\
    Sim.current_time self' = 0 + 0.01 /\
    Sim.dt self' = 0.01.
Proof.
  destruct sim_frc_tick as [self' Ht]. exists self'. split; [exact Ht |].
  apply (tick_motion stalled_solver sim_frc self' Ht).
Defined.

Lemma run_time_witness :
  exists st,
    Sim.run stalled_solver sim_flat 2000 = Some st /\
    Sim.current_time st = 0 + INR 2000 * 0.01 /\ Sim.dt st = 0.01.
Proof.
  destruct (steady_run stalled_solver stalled_solver_nonzero sim_flat 2000 sim_flat_steady)
    as (st & Hrun & _).
  exists st. split; [exact Hrun |].
  apply (run_time stalled_solver sim_flat st 2000 Hrun).
Defined.

Lemma output_data_row (self : Sim.t) (row : list R) :
  Sim.output_data self = Some row ->
  length row = 24%nat /\
  row !! 0%nat = Some (Sim.current_time self) /\
  row !! 1%nat = Some (Sim.current_x self) /\
  row !! 2%nat = Some (Sim.current_x_dot self) /\
  row !! 3%nat = Some (Sim.current_x_ddot self).
Proof.
  unfold Sim.output_data. intros H.
  repeat (apply bind_Some in H as (? & _ & H)).
  injection H as <-. done.
Qed.

Section Log.
Variable root_hybr : (R -> option R) -> R -> R * bool.

(** X14: The log is in time order: row [i] of a run is stamped with the start
    time plus [(i+1) * dt] and has the 24 fields of the frame. *)
Theorem log_time_stamps (self self' : Sim.t) (n i : nat) :
  Sim.run root_hybr self n = Some self' -> (i < n)%nat ->
  exists row,
    Sim.output self' !! (length (Sim.output self) + i)%nat = Some row /\
    length row = length Sim.column_names /\
    row !! 0%nat = Some (Sim.current_time self + INR (S i) * Sim.dt self).
Proof.
  intros Hrun Hi.
  destruct (run_output root_hybr self self' n Hrun) as (_ & _ & Hrows).
  destruct (Hrows i Hi) as (s & row & Hs & Hrow & Hlook).
  exists row. split; [done |].
  destruct (output_data_row s row Hrow) as (Hlen & Ht & _).
  split; [done |]. rewrite Ht.
  destruct (run_clock root_hybr self s (S i) Hs) as (-> & _). done.
Qed.

Lemma run_only_appends (s s' : Sim.t) (k : nat) :
  Sim.run root_hybr s k = Some s' ->
  exists rows, Sim.output s' = Sim.output s ++ rows /\ length rows = k.
Proof.
  revert s'. induction k as [| k IH]; intros s'.
  - intros [= <-]. exists []. by rewrite app_nil_r.
  - rewrite run_S. intros (s1 & Hs1 & Ht)%bind_Some.
    destruct (IH s1 Hs1) as (rows & Hout & Hlen).
    destruct (tick_output root_hybr s1 s' Ht) as (row & _ & Hout').
    exists (rows ++ [row]). rewrite Hout', Hout, <- app_assoc.
    split; [done |]. rewrite length_app. simpl. lia.
Qed.

Lemma for_each_ignores_index {S : Type} (f : S -> option S) (s : S) (l1 l2 : list nat) :
  length l1 = length l2 ->
  for_each (fun s _ => f s) s l1 = for_each (fun s _ => f s) s l2.
Proof.
  revert s l2. induction l1 as [| x l1 IH]; intros s [| y l2]; try discriminate; [done |].
  intros [= Hlen]. simpl. destruct (f s) as [s1 |]; simpl; [by apply IH | done].
Qed.

(** Running [n + k] ticks is running [n] ticks and then [k] more. *)
Lemma run_add (self : Sim.t) (n k : nat) :
  Sim.run root_hybr self (n + k)
  = s ← Sim.run root_hybr self n; Sim.run root_hybr s k.
Proof.
  unfold Sim.run, for_range. rewrite seq_app, for_each_app.
  destruct (for_each _ self (seq 0 n)) as [s |]; simpl; [| done].
  apply for_each_ignores_index. by rewrite !length_seq.
Qed.

(** X15: The log is append-only: the rows a run has written after [n] ticks are
    still there, unchanged and first, after [n + k] ticks, followed by
    exactly [k] new ones. *)
Theorem log_append_only (self s s' : Sim.t) (n k : nat) :
  Sim.run root_hybr self n = Some s ->
  Sim.run root_hybr self (n + k) = Some s' ->
  exists rows, Sim.output s' = Sim.output s ++ rows /\ length rows = k.
Proof.
  intros Hn Hnk. rewrite run_add, Hn in Hnk. simpl in Hnk.
  by apply run_only_appends.
Qed.

End Log.

Lemma log_time_stamps_witness :
  exists self' row,
    Sim.run stalled_solver sim_flat 2000 = Some self' /\
    Sim.output self' !! (length (Sim.output sim_flat) + 1999)%nat = Some row /\
    length row = length Sim.column_names /\
    row !! 0%nat = Some (Sim.current_time sim_flat + INR 2000 * Sim.dt sim_flat).
Proof.
  destruct (steady_run stalled_solver stalled_solver_nonzero sim_flat 2000 sim_flat_steady)
    as (self' & Hrun & _).
  destruct (log_time_stamps stalled_solver sim_flat self' 2000 1999 Hrun ltac:(lia))
    as (row & H).
  exists self', row. split; [exact Hrun | exact H].
Defined.

Lemma log_append_only_witness :
  exists s s' rows,
    Sim.run stalled_solver sim_flat 1000 = Some s /\
    Sim.run stalled_solver sim_flat (1000 + 1000) = Some s' /\
    Sim.output s' = Sim.output s ++ rows /\ length rows = 1000%nat.
Proof.
  destruct (steady_run stalled_solver stalled_solver_nonzero sim_flat 1000 sim_flat_steady)
    as (s & Hs & _).
  destruct (steady_run stalled_solver stalled_solver_nonzero sim_flat (1000 + 1000)
              sim_flat_steady) as (s' & Hs' & _).
  destruct (log_append_only stalled_solver sim_flat s s' 1000 1000 Hs Hs') as (rows & H).
  exists s, s', rows. split; [exact Hs |]. split; [exact Hs' | exact H].
Defined.

(** ** What a run keeps *)

Section Keeps.
Variable root_hybr : (R -> option R) -> R -> R * bool.

(** X16: Every state of a run still has the vehicle, motor, tire, battery, time
    step, run time and static loads it was built with, and exactly four
    cells in each of its per-wheel lists. *)
Theorem run_keeps_setup (vehicle : Vehicle.t) (motor : Motor.t) (tire : Tire.t)
    (battery : Battery.t) (dt runtime : R) (st0 st : Sim.t) (n : nat) :
  Sim.init vehicle motor tire battery dt runtime = Some st0 ->
  Sim.run root_hybr st0 n = Some st ->
  Sim.Vehicle st = vehicle /\ Sim.Motor st = motor /\ Sim.Tire st = tire /\
  Sim.Battery st = battery /\ Sim.dt st = dt /\ Sim.runtime st = runtime /\
  Sim.inital_Fz st = Sim.inital_Fz st0 /\
  length (Sim.current_amps st) = 4%nat /\ length (Sim.current_Fz st) = 4%nat /\
  length (Sim.current_P st) = 4%nat /\ length (Sim.current_slip st) = 4%nat /\
  length (Sim.current_w st) = 4%nat.
Proof.
  intros (_ & ->)%init_started Hrun.
  destruct (run_shape root_hybr _ st n (started_four_wheels _ _ _ _ _ _) Hrun)
    as ((HF & Hw & _ & Ha) & HV & HM & HT & HB & Hdt & Hrt & Hi).
  repeat (split; [done |]).
  destruct n as [| n].
  - injection Hrun as <-. done.
  - rewrite run_S in Hrun. apply bind_Some in Hrun as (s & Hs & Ht).
    destruct (run_shape root_hybr _ s n (started_four_wheels _ _ _ _ _ _) Hs)
      as ((HFs & _) & _).
    destruct (tick_spec root_hybr s st HFs Ht)
      as (loc & xdd & row & Hloc & _ & _ & _ & _ & _ & _ & _ & _ & EP & Es & _).
    destruct (wheel_lists_spec root_hybr s loc HFs Hloc) as ((HlP & _ & _ & _ & Hls) & _).
    rewrite EP, Es. done.
Qed.

(** X17: When a tick is defined.  On a four-wheel state, with a root finder
    whose iterate is never 0, a tick returns as soon as all four loads are
    present and not zero and none of tire radius, torque constant,
    efficiency, mass and wheelbase is zero; and it fails whenever the
    efficiency [k] or the wheelbase [l] is zero (the divisions [1 / k] and
    [h / l]). *)
Theorem tick_defined_when (self : Sim.t) :
  four_wheels self ->
  (forall f, Sim.fsolve root_hybr f 1 <> 0) ->
  (loaded self /\
   Tire.r (Sim.Tire self) <> 0 /\ Motor.Kt (Sim.Motor self) <> 0 /\
   Motor.k (Sim.Motor self) <> 0 /\
   Vehicle.m (Sim.Vehicle self) <> 0 /\ Vehicle.l (Sim.Vehicle self) <> 0 ->
   is_Some (Sim.tick root_hybr self)) /\
  (Motor.k (Sim.Motor self) = 0 \/ Vehicle.l (Sim.Vehicle self) = 0 ->
   Sim.tick root_hybr self = None).
Proof.
  intros H4 Hsol. pose proof H4 as (HF & Hw & Hi & _). split.
  - intros (Hload & Hr & HKt & Hk & Hm & Hl). by apply tick_total.
  - intros Hzero. destruct (Sim.tick root_hybr self) as [self' |] eqn:Ht; [| done].
    exfalso.
    destruct (tick_spec root_hybr self self' HF Ht)
      as (st & xdd & row & _ & _ & _ & _ & _ & _ & _ & _ & _ & _ & _ & _ & _ & Hl & _).
    destruct (tick_wheels root_hybr self self' 0 H4 Ht ltac:(lia))
      as (p0 & t0 & w0 & a0 & s0 & _ & _ & _ & _ & _ & Hd & _).
    destruct Hd as (k & w_prev & _ & _ & _ & _ & Hk & _).
    destruct Hzero; contradiction.
Qed.

End Keeps.

Lemma run_keeps_setup_witness :
  exists st,
    Sim.run stalled_solver sim_flat 2000 = Some st /\
    Sim.Vehicle st = vehicle_flat /\ Sim.Motor st = motor_frc /\ Sim.Tire st = tire_frc /\
    Sim.Battery st = battery_frc /\ Sim.dt st = 0.01 /\ Sim.runtime st = 20 /\
    Sim.inital_Fz st = Sim.inital_Fz sim_flat /\
    length (Sim.current_amps st) = 4%nat /\ length (Sim.current_Fz st) = 4%nat /\
    length (Sim.current_P st) = 4%nat /\ length (Sim.current_slip st) = 4%nat /\
    length (Sim.current_w st) = 4%nat.
Proof.
  destruct (steady_run stalled_solver stalled_solver_nonzero sim_flat 2000 sim_flat_steady)
    as (st & Hrun & _).
  exists st. split; [exact Hrun |].
  apply (run_keeps_setup stalled_solver vehicle_flat motor_frc tire_frc battery_frc
           0.01 20 sim_flat st 2000); [| exact Hrun].
  apply init_started. split; [simpl; lra | reflexivity].
Defined.

Lemma tick_defined_when_witness :
  is_Some (Sim.tick stalled_solver sim_frc) /\
  Sim.tick stalled_solver
    (started vehicle_frc (Motor.mk 2000 (1 / (2000 * 0.10472)) 0)
       tire_frc battery_frc 0.01 20) = None.
Proof.
  split.
  - apply (tick_defined_when stalled_solver sim_frc).
    + apply started_four_wheels.
    + apply stalled_solver_nonzero.
    + split; [apply sim_frc_loaded |]. simpl. repeat split; lra.
  - apply (tick_defined_when stalled_solver
             (started vehicle_frc (Motor.mk 2000 (1 / (2000 * 0.10472)) 0)
                tire_frc battery_frc 0.01 20)).
    + apply started_four_wheels.
    + apply stalled_solver_nonzero.
    + left. reflexivity.
Defined.

(** ** Left and right *)

Section Mirror.
Variable root_hybr : (R -> option R) -> R -> R * bool.

Lemma sample_twin (self : Sim.t) (i j : nat) (s : R) :
  Sim.current_Fz self !! i = Sim.current_Fz self !! j ->
  Sim.sample self s i = Sim.sample self s j.
Proof. intros H. unfold Sim.sample. by rewrite H. Qed.

Lemma is_peak_twin (self : Sim.t) (i j k : nat) (p : R) :
  Sim.current_Fz self !! i = Sim.current_Fz self !! j ->
  is_peak self i k p -> is_peak self j k p.
Proof.
  intros HF (Hk & Hg & Hle & Hlt).
  assert (Hs : forall n, grid_sample self i n = grid_sample self j n)
    by (intros n; rewrite <- !grid_sample_is_sample; by apply sample_twin).
  split; [done |]. split; [by rewrite <- Hs |]. split.
  - intros n Hn. rewrite <- Hs. by apply Hle.
  - intros n Hn. rewrite <- Hs. by apply Hlt.
Qed.

Lemma demanded_twin (self : Sim.t) (i j : nat) (p t w a s p' t' w' a' s' : R) :
  Sim.current_Fz self !! i = Sim.current_Fz self !! j ->
  Sim.current_w self !! i = Sim.current_w self !! j ->
  demanded self i p t w a s -> demanded self j p' t' w' a' s' ->
  p = p' /\ t = t' /\ w = w' /\ a = a' /\ s = s'.
Proof.
  intros HF Hw (k & wp & Hpk & Hwp & _ & _ & _ & -> & -> & -> & ->)
    (k' & wp' & Hpk' & Hwp' & _ & _ & _ & -> & -> & -> & ->).
  apply (is_peak_twin self i j) in Hpk; [| done].
  destruct (is_peak_unique self j k k' p p' Hpk Hpk') as (-> & ->).
  rewrite Hw, Hwp' in Hwp. injection Hwp as ->. done.
Qed.

Lemma w_fun_twin (self : Sim.t) (i j : nat) (t : R) :
  Sim.current_Fz self !! i = Sim.current_Fz self !! j ->
  Sim.current_w self !! i = Sim.current_w self !! j ->
  (fun w => Sim.w_fun self w t i) = (fun w => Sim.w_fun self w t j).
Proof.
  intros HF Hw. apply functional_extensionality. intros w.
  unfold Sim.w_fun. by rewrite HF, Hw.
Qed.

Lemma limited_twin (self : Sim.t) (i j : nat)
    (p0 t0 w0 a0 s0 p t w a s p' t' w' a' s' : R) :
  Sim.current_Fz self !! i = Sim.current_Fz self !! j ->
  Sim.current_w self !! i = Sim.current_w self !! j ->
  limited root_hybr self i p0 t0 w0 a0 s0 p t w a s ->
  limited root_hybr self j p0 t0 w0 a0 s0 p' t' w' a' s' ->
  p = p' /\ w = w' /\ a = a' /\ s = s'.
Proof.
  intros HF Hw
    [(Hgt & _ & -> & -> & -> & _ & -> & Hp) | (Hle & -> & -> & -> & -> & ->)]
    [(Hgt' & _ & -> & -> & -> & _ & -> & Hp') | (Hle' & -> & -> & -> & -> & ->)];
    try contradiction; [| done].
  rewrite (w_fun_twin self i j _ HF Hw) in *.
  rewrite (sample_twin self i j _ HF), Hp' in Hp. injection Hp as ->. done.
Qed.

Lemma tick_twin (self self' : Sim.t) (i j : nat) :
  four_wheels self -> Sim.tick root_hybr self = Some self' ->
  (i < 4)%nat -> (j < 4)%nat ->
  Sim.current_Fz self !! i = Sim.current_Fz self !! j ->
  Sim.current_w self !! i = Sim.current_w self !! j ->
  Sim.current_P self' !! i = Sim.current_P self' !! j /\
  Sim.current_w self' !! i = Sim.current_w self' !! j /\
  Sim.current_amps self' !! i = Sim.current_amps self' !! j /\
  Sim.current_slip self' !! i = Sim.current_slip self' !! j.
Proof.
  intros H4 Ht Hi Hj HF Hw.
  destruct (tick_wheels root_hybr self self' i H4 Ht Hi)
    as (p0 & t0 & w0 & a0 & s0 & p & t & w & a & s & Hd & Hl & -> & -> & -> & ->).
  destruct (tick_wheels root_hybr self self' j H4 Ht Hj)
    as (p0' & t0' & w0' & a0' & s0' & p' & t' & w' & a' & s' & Hd' & Hl' & -> & -> & -> & ->).
  destruct (demanded_twin self i j _ _ _ _ _ _ _ _ _ _ HF Hw Hd Hd')
    as (<- & <- & <- & <- & <-).
  destruct (limited_twin self i j _ _ _ _ _ _ _ _ _ _ _ _ _ _ _ HF Hw Hl Hl')
    as (-> & -> & -> & ->).
  done.
Qed.

Lemma tick_symmetric (self self' : Sim.t) :
  four_wheels self -> symmetric self -> Sim.tick root_hybr self = Some self' ->
  symmetric self'.
Proof.
  intros H4 ((Hi01 & Hi23) & (HF01 & HF23) & (Hw01 & Hw23) & _) Ht.
  destruct (tick_twin self self' 0 1 H4 Ht ltac:(lia) ltac:(lia) HF01 Hw01)
    as (HP & Hw & Ha & Hs).
  destruct (tick_twin self self' 2 3 H4 Ht ltac:(lia) ltac:(lia) HF23 Hw23)
    as (HP' & Hw' & Ha' & Hs').
  destruct (tick_shape root_hybr self self' H4 Ht) as (_ & _ & _ & _ & _ & _ & _ & Hi).
  pose proof H4 as (_ & _ & Hli & _).
  destruct (Sim.inital_Fz self) as [| f0 [| f1 [| f2 [| f3 [| ? ?]]]]] eqn:Hinit;
    try discriminate.
  pose proof (tick_loads root_hybr self self' f0 f1 f2 f3 H4 Ht Hinit) as HFz.
  simpl in Hi01, Hi23, HFz. injection Hi01 as ->. injection Hi23 as ->.
  unfold symmetric, mirrored. rewrite Hi, HFz. done.
Qed.

(** X18: A run stays symmetric: in every state, the left and the right wheel of
    each axle have the same load, speed, current, force and slip. *)
Theorem run_symmetric (vehicle : Vehicle.t) (motor : Motor.t) (tire : Tire.t)
    (battery : Battery.t) (dt runtime : R) (st0 st : Sim.t) (n : nat) :
  Sim.init vehicle motor tire battery dt runtime = Some st0 ->
  Sim.run root_hybr st0 n = Some st ->
  symmetric st.
Proof.
  intros (_ & ->)%init_started. revert st. induction n as [| n IH]; intros st.
  - intros [= <-]. by repeat split.
  - rewrite run_S. intros (s & Hs & Ht)%bind_Some.
    destruct (run_shape root_hybr _ s n (started_four_wheels _ _ _ _ _ _) Hs) as (H4 & _).
    by apply (tick_symmetric s st H4 (IH s Hs)).
Qed.

End Mirror.

Lemma run_symmetric_witness :
  exists st, Sim.run stalled_solver sim_flat 2000 = Some st /\ symmetric st.
Proof.
  destruct (steady_run stalled_solver stalled_solver_nonzero sim_flat 2000 sim_flat_steady)
    as (st & Hrun & _).
  exists st. split; [exact Hrun |].
  apply (run_symmetric stalled_solver vehicle_flat motor_frc tire_frc battery_frc
           0.01 20 sim_flat st 2000); [| exact Hrun].
  apply init_started. split; [simpl; lra | reflexivity].
Defined.

(** ** The tick count of a call *)

Lemma py_int_floor (q : R) :
  0 <= q -> (0 <= py_int q)%Z /\ IZR (py_int q) <= q < IZR (py_int q) + 1.
Proof.
  intros Hq. unfold py_int. destruct (Rle_dec 0 q) as [_ | Hn]; [| contradiction].
  destruct (base_Int_part q) as (Hlo & Hhi). split; [| lra].
  apply le_IZR. apply Rnot_lt_le. intros Hneg.
  assert (IZR (Int_part q) <= -1).
  { change (-1) with (IZR (-1)). apply IZR_le.
    apply lt_IZR in Hneg. lia. }
  lra.
Qed.

Lemma py_int_below_one (q : R) : q < 1 -> (py_int q <= 0)%Z.
Proof.
  intros Hq. unfold py_int. destruct (Rle_dec 0 q) as [Hp | Hn].
  - destruct (base_Int_part q) as (Hlo & _).
    apply le_IZR. apply Rnot_lt_le. intros Hpos.
    assert (1 <= IZR (Int_part q)).
    { change 1 with (IZR 1). apply IZR_le. apply lt_IZR in Hpos. lia. }
    lra.
  - destruct (base_Int_part (- q)) as (_ & Hhi).
    assert (0 <= Int_part (- q))%Z; [| lia].
    apply le_IZR. apply Rnot_lt_le. intros Hneg.
    assert (IZR (Int_part (- q)) <= -1).
    { change (-1) with (IZR (-1)). apply IZR_le. apply lt_IZR in Hneg. lia. }
    lra.
Qed.

Section Count.
Variable root_hybr : (R -> option R) -> R -> R * bool.

(** X19: A call runs [floor(runtime/dt)] ticks: for a time step that is not zero
    and a quotient that is not negative, it is the run of the one [n] with
    [n <= runtime/dt < n + 1]. *)
Theorem call_runs_floor (self : Sim.t) :
  Sim.dt self <> 0 -> 0 <= Sim.runtime self / Sim.dt self ->
  exists n : nat,
    INR n <= Sim.runtime self / Sim.dt self < INR n + 1 /\
    Sim.call root_hybr self = Sim.run root_hybr self n.
Proof.
  intros Hdt Hq. destruct (py_int_floor _ Hq) as (Hz & Hfloor).
  exists (Z.to_nat (py_int (Sim.runtime self / Sim.dt self))). split.
  - rewrite INR_IZR_INZ, Z2Nat.id by done. exact Hfloor.
  - unfold Sim.call, Sim.ticks. rewrite fdiv_nonzero by done. done.
Qed.

(** X20: The edges of a call: a zero time step makes it fail (the division
    [runtime/dt]); a quotient below 1, negative ones included, makes it run
    no tick and leave the state and its log as they are. *)
Theorem call_edges (self : Sim.t) :
  (Sim.dt self = 0 -> Sim.call root_hybr self = None) /\
  (Sim.dt self <> 0 -> Sim.runtime self / Sim.dt self < 1 ->
   Sim.call root_hybr self = Some self).
Proof.
  unfold Sim.call, Sim.ticks. split.
  - intros ->. by rewrite fdiv_zero.
  - intros Hdt Hq. rewrite fdiv_nonzero by done. simpl.
    pose proof (py_int_below_one _ Hq) as Hz.
    replace (Z.to_nat (py_int (Sim.runtime self / Sim.dt self))) with 0%nat by lia.
    done.
Qed.

End Count.

Lemma call_runs_floor_witness :
  exists n : nat,
    INR n <= Sim.runtime sim_frc / Sim.dt sim_frc < INR n + 1 /\
    Sim.call stalled_solver sim_frc = Sim.run stalled_solver sim_frc n.
Proof.
  apply (call_runs_floor stalled_solver sim_frc); simpl; lra.
Defined.

(** ** Wheels below the burst current, and cars without weight transfer *)

Section Below.
Variable root_hybr : (R -> option R) -> R -> R * bool.

(** X21: A wheel whose committed current is below the burst current was not
    limited: its slip is the grid point of the peak, its force is that peak
    and not negative, and its current is the demanded one. *)
Theorem below_burst_wheel_is_at_peak (self self' : Sim.t) (i : nat) (a : R) :
  four_wheels self -> Sim.tick root_hybr self = Some self' -> (i < 4)%nat ->
  Sim.current_amps self' !! i = Some a ->
  a < Battery.Burst (Sim.Battery self) ->
  exists k p t w,
    is_peak self i k p /\ 0 <= p /\
    demanded self i p t w a (INR k / 100) /\
    Sim.current_P self' !! i = Some p /\
    Sim.current_slip self' !! i = Some (INR k / 100) /\
    Sim.current_w self' !! i = Some w.
Proof.
  intros H4 Ht Hi Ha Hlt.
  destruct (tick_wheels root_hybr self self' i H4 Ht Hi)
    as (p0 & t0 & w0 & a0 & s0 & p & t & w & a' & s & Hd & Hl & HP & Hw & Ha' & Hs).
  rewrite Ha in Ha'. injection Ha' as <-.
  destruct Hl as [(_ & _ & -> & _) | (_ & -> & -> & -> & -> & ->)]; [lra |].
  pose proof Hd as (k & w_prev & Hpk & _ & _ & _ & _ & -> & _).
  exists k, p0, t0, w0. split; [done |].
  split; [by eapply is_peak_nonnegative |]. done.
Qed.

(** X22: With the centre of gravity on the ground ([h = 0]) no load is ever
    transferred: in every state of a run the loads are the static ones. *)
Theorem no_transfer_without_height (a b m cd A : R) (motor : Motor.t)
    (tire : Tire.t) (battery : Battery.t) (dt runtime : R) (st0 st : Sim.t) (n : nat) :
  Sim.init (Vehicle.init a b m 0 cd A) motor tire battery dt runtime = Some st0 ->
  Sim.run root_hybr st0 n = Some st ->
  Sim.current_Fz st = Sim.inital_Fz st0.
Proof.
  intros (Hl & ->)%init_started Hrun.
  rewrite (run_loads root_hybr _ _ _ _ _ _ st n Hrun). simpl.
  repeat f_equal; unfold Rdiv; ring.
Qed.

End Below.

Lemma no_transfer_without_height_witness :
  exists st,
    Sim.run stalled_solver sim_flat 2000 = Some st /\
    Sim.current_Fz st = Sim.inital_Fz sim_flat.
Proof.
  destruct (steady_run stalled_solver stalled_solver_nonzero sim_flat 2000 sim_flat_steady)
    as (st & Hrun & _).
  exists st. split; [exact Hrun |].
  apply (no_transfer_without_height stalled_solver 0.126 0.126 5 0.75 0.0418
           motor_frc tire_frc battery_frc 0.01 20 sim_flat st 2000); [| exact Hrun].
  apply init_started. split; [simpl; lra | reflexivity].
Defined.

Lemma call_edges_witness :
  Sim.call stalled_solver (started vehicle_frc motor_frc tire_frc battery_frc 0 20) = None /\
  Sim.call stalled_solver (started vehicle_frc motor_frc tire_frc battery_frc 0.01 0)
  = Some (started vehicle_frc motor_frc tire_frc battery_frc 0.01 0).
Proof.
  split.
  - apply (call_edges stalled_solver
             (started vehicle_frc motor_frc tire_frc battery_frc 0 20)). reflexivity.
  - apply (call_edges stalled_solver
             (started vehicle_frc motor_frc tire_frc battery_frc 0.01 0)); simpl; lra.
Defined.

Lemma sim_grip_loaded : loaded sim_grip.
Proof. apply started_loaded; simpl; lra. Qed.

Lemma sim_grip_tick : is_Some (Sim.tick stalled_solver sim_grip).
Proof.
  apply tick_total; try done; try (simpl; lra).
  - apply sim_grip_loaded.
  - apply stalled_solver_nonzero.
Qed.

(** On the reference battery the demo tire never demands the burst current
    from rest. *)
Lemma sim_grip_demand (i : nat) (p t w a s : R) :
  demanded sim_grip i p t w a s -> a < Battery.Burst (Sim.Battery sim_grip).
Proof.
  intros (k & w_prev & (Hk & Hg & _) & Hwp & _ & _ & _ & -> & -> & -> & ->).
  apply grid_sample_Some in Hg as (fz & Hfz & _ & ->).
  assert (Hi : (i < 4)%nat) by (by apply lookup_lt_Some in Hfz).
  assert (fz = 1.25) as ->.
  { destruct i as [| [| [| [| i]]]]; try lia; simpl in Hfz; injection Hfz as <-; lra. }
  assert (w_prev = 0) as ->.
  { destruct i as [| [| [| [| i]]]]; try lia; simpl in Hwp; by injection Hwp as <-. }
  assert (Hmu : Tire.mu tire_demo (INR k / 100) <= 1).
  { unfold Tire.mu. simpl. rewrite Rmult_1_l. apply SIN_bound. }
  assert (Hs : 0.01 <= 1 - INR k / 100).
  { assert (INR k <= 99); [| lra].
    replace 99 with (INR 99) by (simpl; lra). apply le_INR. lia. }
  simpl.
  assert (Hw : 0.0001 / (0.032 * (1 - INR k / 100)) <= 0.3125).
  { apply Rmult_le_reg_r with (0.032 * (1 - INR k / 100)); [lra |].
    unfold Rdiv. rewrite Rmult_assoc, Rinv_l by lra. lra. }
  set (w := 0.0001 / (0.032 * (1 - INR k / 100))) in *. clearbody w.
  set (mu := Tire.mu tire_demo (INR k / 100)) in *. clearbody mu.
  rewrite amps_frc. lra.
Qed.

Lemma below_burst_wheel_is_at_peak_witness :
  exists self' a k p t w,
    Sim.tick stalled_solver sim_grip = Some self' /\
    Sim.current_amps self' !! 0%nat = Some a /\
    a < Battery.Burst battery_frc /\
    is_peak sim_grip 0 k p /\ 0 <= p /\
    demanded sim_grip 0 p t w a (INR k / 100) /\
    Sim.current_P self' !! 0%nat = Some p /\
    Sim.current_slip self' !! 0%nat = Some (INR k / 100) /\
    Sim.current_w self' !! 0%nat = Some w.
Proof.
  destruct sim_grip_tick as [self' Ht].
  destruct (tick_wheels stalled_solver sim_grip self' 0
              (started_four_wheels _ _ _ _ _ _) Ht ltac:(lia))
    as (p0 & t0 & w0 & a0 & s0 & p & t & w & a & s & Hd & Hl & _ & _ & Ha & _).
  pose proof (sim_grip_demand 0 _ _ _ _ _ Hd) as Hlow.
  assert (Hlt : a < Battery.Burst battery_frc).
  { destruct Hl as [(Hgt & _) | (_ & _ & _ & _ & -> & _)]; [| exact Hlow].
    change (Sim.Battery sim_grip) with battery_frc in *. lra. }
  destruct (below_burst_wheel_is_at_peak stalled_solver sim_grip self' 0 a
              (started_four_wheels _ _ _ _ _ _) Ht ltac:(lia) Ha Hlt)
    as (k & p1 & t1 & w1 & H).
  exists self', a, k, p1, t1, w1.
  split; [exact Ht |]. split; [exact Ha |]. split; [exact Hlt | exact H].
Defined.
